(** * gotestdox: the test-name prettifier (prettifier.go)

    A shallow embedding of [Prettify] and of the lexer it drives: the
    [prettifier] struct, its cursor methods, the two state functions
    [betweenWords] and [inWord], and the loop that runs them.

    Conventions of the embedding.
    - A [rune] is an integer; Go's [int] offsets are integers as well, so
      that [p.pos-1] below zero is an index out of range and not a
      truncated subtraction.
    - A Go [string] is represented by its sequence of code points (what
      [[]rune(s)] yields); [len(s)], which counts bytes, is recovered from
      the UTF-8 width of each code point.
    - Indexing and slicing are partial: out of range is a run-time panic.
      Slicing is checked against the length (Go checks the capacity, which
      is at least the length), so a run that does not panic here does not
      panic in Go.
    - The methods mutate [*prettifier]; they are written in a state monad
      over the struct whose result is a value, a panic, or fuel exhaustion
      of the state loop.
    - The Unicode predicates and the case mappings come from Go's [unicode]
      and [golang.org/x/text/cases]; the machine is parametric in them. *)

From Stdlib Require Import String Ascii ZArith List Bool Lia.
Import ListNotations.
Open Scope Z_scope.

(** ** Runes and strings *)

Definition rune := Z.
Definition gostring := list rune.

Definition len {A : Type} (s : list A) : Z := Z.of_nat (length s).

(** [s[i]]: panics unless [0 <= i < len(s)]. *)
Definition index (s : list rune) (i : Z) : option rune :=
  if (0 <=? i) && (i <? len s) then nth_error s (Z.to_nat i) else None.

(** [s[lo:hi]]: panics unless [0 <= lo <= hi <= len(s)]. *)
Definition slice (s : list rune) (lo hi : Z) : option (list rune) :=
  if (0 <=? lo) && (lo <=? hi) && (hi <=? len s)
  then Some (firstn (Z.to_nat (hi - lo)) (skipn (Z.to_nat lo) s))
  else None.

Definition RuneError : rune := 65533.

(** A Unicode scalar value: in range and not a surrogate. *)
Definition ValidRune (r : rune) : bool :=
  ((0 <=? r) && (r <? 55296)) || ((57343 <? r) && (r <=? 1114111)).

(** [string(rs)] for [rs []rune]: a value that is not a scalar value is
    converted to U+FFFD. *)
Definition string_of_rune (r : rune) : rune :=
  if ValidRune r then r else RuneError.

Definition string_of_runes (rs : list rune) : gostring :=
  map string_of_rune rs.

(** Number of bytes of the UTF-8 encoding of a code point. *)
Definition RuneLen (r : rune) : Z :=
  if r <? 128 then 1 else if r <? 2048 then 2 else if r <? 65536 then 3 else 4.

(** [len(s)] for a string: its length in bytes. *)
Definition len_string (s : gostring) : Z :=
  fold_right (fun r n => RuneLen r + n) 0 s.

Fixpoint string_eqb (a b : gostring) : bool :=
  match a, b with
  | [], [] => true
  | x :: a', y :: b' => (x =? y) && string_eqb a' b'
  | _, _ => false
  end.

(** A string literal, as code points (ASCII literals only). *)
Definition lit (s : string) : gostring :=
  map (fun c => Z.of_N (N_of_ascii c)) (list_ascii_of_string s).

(** [strings.HasPrefix], [strings.TrimPrefix], [strings.Join]. *)
Definition HasPrefix (s prefix : gostring) : bool :=
  (length prefix <=? length s)%nat && string_eqb (firstn (length prefix) s) prefix.

Definition TrimPrefix (s prefix : gostring) : gostring :=
  if HasPrefix s prefix then skipn (length prefix) s else s.

Fixpoint Join (elems : list gostring) (sep : gostring) : gostring :=
  match elems with
  | [] => []
  | [e] => e
  | e :: rest => e ++ sep ++ Join rest sep
  end.

(** ** The Unicode library *)

(** [unicode.IsUpper], [unicode.IsLower], [unicode.IsDigit],
    [cases.Title(language.Und, cases.NoLower).String] and
    [cases.Lower(language.Und).String]. *)
Class UnicodeLib := {
  IsUpper : rune -> bool;
  IsLower : rune -> bool;
  IsDigit : rune -> bool;
  Title : gostring -> gostring;
  Lower : gostring -> gostring
}.

(** The tables on Basic Latin and Latin-1, used to run the machine on
    concrete identifiers.  Upper-case letters are A-Z, U+00C0-U+00D6 and
    U+00D8-U+00DE; lower-case letters are a-z, U+00B5, U+00DF-U+00F6 and
    U+00F8-U+00FF; the digits are 0-9.  Lower-casing adds 32 to an
    upper-case letter.  Title-casing upper-cases the rune that opens each
    maximal run of letters and digits and leaves the rest as it is;
    U+00B5, U+00DF and U+00FF, whose upper-case forms lie outside Latin-1,
    are left alone, as is every rune above U+00FF. *)
Module Latin1.

Definition between (lo hi r : rune) : bool := (lo <=? r) && (r <=? hi).

Definition isUpper (r : rune) : bool :=
  between 65 90 r || between 192 214 r || between 216 222 r.

Definition isLower (r : rune) : bool :=
  between 97 122 r || (r =? 181) || between 223 246 r || between 248 255 r.

Definition isDigit (r : rune) : bool := between 48 57 r.

Definition toLower (r : rune) : rune := if isUpper r then r + 32 else r.

Definition toUpper (r : rune) : rune :=
  if between 97 122 r || between 224 246 r || between 248 254 r
  then r - 32 else r.

Definition lower (s : gostring) : gostring := map toLower s.

Fixpoint titleFrom (inside : bool) (s : gostring) : gostring :=
  match s with
  | [] => []
  | r :: s' =>
      if isUpper r || isLower r || isDigit r
      then (if inside then r else toUpper r) :: titleFrom true s'
      else r :: titleFrom false s'
  end.

Definition title (s : gostring) : gostring := titleFrom false s.

End Latin1.

#[export] Instance Latin1Lib : UnicodeLib := {
  IsUpper := Latin1.isUpper;
  IsLower := Latin1.isLower;
  IsDigit := Latin1.isDigit;
  Title := Latin1.title;
  Lower := Latin1.lower
}.

(** ** The debug stream *)

(** What [log] is asked to print: one constructor per call site. *)
Inductive logLine :=
| LogInput (input : gostring)
| LogResult (result : gostring)
| LogEmit (word : gostring)
| LogMultiword (fname : gostring)
| LogState (stateName : string) (word : gostring) (next : gostring).

(** An [io.Writer] that receives the lines: the state of the stream and
    what printing a line does to it.  The writer is taken to be a usable
    one (not nil, and with a [Write] that returns); the error [Write] may
    return is dropped by [log], so a write is a state change and nothing
    else. *)
Class DebugSink := {
  Sink : Type;
  write : Sink -> logLine -> Sink
}.

(** The stream that keeps every line, latest first. *)
Definition TraceSink : DebugSink := {|
  Sink := list logLine;
  write := fun s l => l :: s
|}.

(** ** Results of a run *)

Inductive result (A : Type) :=
| Ok (a : A)
| Panic
| OutOfFuel.
Arguments Ok {A} a.
Arguments Panic {A}.
Arguments OutOfFuel {A}.

(** The function values a [stateFunc] can hold; [nil] is [None]. *)
Inductive stateFunc := BetweenWords | InWord.

Definition eof : rune := 0.

Section Machine.

Context {U : UnicodeLib} {W : DebugSink}.

(** [p.debug]: [io.Discard] or the [DebugWriter] stream. *)
Inductive Writer :=
| Discard
| Stream (s : Sink).

Definition Fprintln (w : Writer) (l : logLine) : Writer :=
  match w with
  | Discard => Discard
  | Stream s => Stream (write s l)
  end.

Record prettifier := mkPrettifier {
  debug : Writer;
  input : list rune;
  start : Z;
  pos : Z;
  words : list gostring;
  inSubTest : bool;
  seenUnderscore : bool
}.

Definition set_debug (p : prettifier) (d : Writer) : prettifier :=
  mkPrettifier d (input p) (start p) (pos p) (words p) (inSubTest p) (seenUnderscore p).
Definition set_start (p : prettifier) (v : Z) : prettifier :=
  mkPrettifier (debug p) (input p) v (pos p) (words p) (inSubTest p) (seenUnderscore p).
Definition set_pos (p : prettifier) (v : Z) : prettifier :=
  mkPrettifier (debug p) (input p) (start p) v (words p) (inSubTest p) (seenUnderscore p).
Definition set_words (p : prettifier) (v : list gostring) : prettifier :=
  mkPrettifier (debug p) (input p) (start p) (pos p) v (inSubTest p) (seenUnderscore p).
Definition set_inSubTest (p : prettifier) (v : bool) : prettifier :=
  mkPrettifier (debug p) (input p) (start p) (pos p) (words p) v (seenUnderscore p).
Definition set_seenUnderscore (p : prettifier) (v : bool) : prettifier :=
  mkPrettifier (debug p) (input p) (start p) (pos p) (words p) (inSubTest p) v.

(** *** The monad of the methods *)

Definition M (A : Type) : Type := prettifier -> result (A * prettifier).

Definition ret {A} (a : A) : M A := fun p => Ok (a, p).

Definition bind {A B} (m : M A) (f : A -> M B) : M B :=
  fun p =>
    match m p with
    | Ok (a, p') => f a p'
    | Panic => Panic
    | OutOfFuel => OutOfFuel
    end.

Definition get : M prettifier := fun p => Ok (p, p).

Definition modify (f : prettifier -> prettifier) : M unit := fun p => Ok (tt, f p).

Definition lift {A} (o : option A) : M A :=
  fun p => match o with Some a => Ok (a, p) | None => Panic end.

Notation "x <- m ;; k" := (bind m (fun x => k))
  (at level 61, m at next level, right associativity).
Notation "m ;;; k" := (bind m (fun _ => k))
  (at level 61, right associativity).

(** *** Cursor methods *)

Definition skip : M unit :=
  modify (fun p => set_start p (pos p)).

Definition prev : M rune :=
  p <- get ;; lift (index (input p) (pos p - 1)).

Definition peek : M rune :=
  p <- get ;;
  if len (input p) <=? pos p then ret eof
  else lift (index (input p) (pos p)).

Definition walk : M rune :=
  next <- peek ;;
  modify (fun p => set_pos p (pos p + 1)) ;;;
  ret next.

Definition next : M rune :=
  p <- get ;;
  if len (input p) <=? pos p + 1 then lift (index (input p) (pos p))
  else lift (index (input p) (pos p + 1)).

Definition isInitialism : M bool :=
  p <- get ;;
  let e := pos p - 1 in
  let e := if e <? start p then start p else e in
  rs <- lift (slice (input p) (start p) e) ;;
  if existsb IsLower rs then ret false
  else
    r <- lift (index (input p) e) ;;
    ret (IsUpper r || IsDigit r || (r =? 115)).

(** [unicode.IsUpper(p.prev()) && f(p.next())]: [next] is only called
    when the first operand holds. *)
Definition prevUpperAnd (f : rune -> bool) : M bool :=
  a <- prev ;;
  if IsUpper a then b <- next ;; ret (f b) else ret false.

Definition inInitialism : M bool :=
  c1 <- prevUpperAnd IsUpper ;;
  if c1 then ret true
  else
    c2 <- prevUpperAnd IsDigit ;;
    if c2 then ret true
    else
      c3 <- prevUpperAnd (fun r => r =? 115) ;;
      if c3 then ret true else ret false.

Definition log (l : logLine) : M unit :=
  modify (fun p => set_debug p (Fprintln (debug p) l)).

Definition emit : M unit :=
  p <- get ;;
  w <- lift (slice (input p) (start p) (pos p)) ;;
  let word := string_of_runes w in
  word <- (if len (words p) =? 0 then ret (Title word)
           else if len_string word <? 3 then
             (if string_eqb word (lit "OK") then ret word
              else ret (Lower word))
           else
             b <- isInitialism ;;
             if b then ret word else ret (Lower word)) ;;
  log (LogEmit word) ;;;
  modify (fun p => set_words p (words p ++ [word])) ;;;
  skip.

Definition multiWordFunction : M unit :=
  p <- get ;;
  let fname := fold_left (fun fname w => fname ++ Title w) (words p) [] in
  log (LogMultiword fname) ;;;
  modify (fun p => set_words p [fname]) ;;;
  modify (fun p => set_seenUnderscore p true).

Definition logState (stateName : string) : M unit :=
  p <- get ;;
  next <- (if pos p <? len (input p)
           then r <- lift (index (input p) (pos p)) ;; ret (string_of_runes [r])
           else ret (lit "EOF")) ;;
  w <- lift (slice (input p) (start p) (pos p)) ;;
  log (LogState stateName (string_of_runes w) next).

(** *** State functions

    Each state function is a [for] loop that ends by returning the next
    state.  One call below is one pass through the loop body; going
    round the loop again is returning the state itself, which the state
    loop then calls again. *)

Definition betweenWords : M (option stateFunc) :=
  logState "betweenWords" ;;;
  r <- walk ;;
  if r =? eof then ret None
  else if (r =? 95) || (r =? 47) then
    skip ;;; ret (Some BetweenWords)
  else ret (Some InWord).

Definition inWord : M (option stateFunc) :=
  logState "inWord" ;;;
  r <- peek ;;
  if r =? eof then
    emit ;;; ret None
  else if r =? 95 then
    emit ;;;
    p <- get ;;
    (if negb (seenUnderscore p) && negb (inSubTest p)
     then multiWordFunction else ret tt) ;;;
    ret (Some BetweenWords)
  else if r =? 47 then
    emit ;;;
    modify (fun p => set_inSubTest p true) ;;;
    ret (Some BetweenWords)
  else if IsDigit r then
    a <- prev ;;
    if IsDigit a then walk ;;; ret (Some InWord)
    else
      a <- prev ;;
      if a =? 45 then walk ;;; ret (Some InWord)
      else
        a <- prev ;;
        if a =? 61 then walk ;;; ret (Some InWord)
        else
          b <- inInitialism ;;
          if b then walk ;;; ret (Some InWord)
          else emit ;;; ret (Some BetweenWords)
  else if IsUpper r then
    b <- inInitialism ;;
    if b then walk ;;; ret (Some InWord)
    else emit ;;; ret (Some BetweenWords)
  else
    walk ;;; ret (Some InWord).

Definition call (state : stateFunc) : M (option stateFunc) :=
  match state with
  | BetweenWords => betweenWords
  | InWord => inWord
  end.

(** [for state := betweenWords; state != nil; { state = state(p) }] *)
Fixpoint run (fuel : nat) (state : option stateFunc) : M unit :=
  match state with
  | None => ret tt
  | Some s =>
      match fuel with
      | O => fun _ => OutOfFuel
      | S n => state' <- call s ;; run n state'
      end
  end.

(** The struct literal of [Prettify], and the choice of the stream:
    [getenv] is the value of GOTESTDOX_DEBUG (empty when unset). *)
Definition newPrettifier (getenv : gostring) (DebugWriter : Sink)
    (input : gostring) : prettifier :=
  let p := mkPrettifier Discard (TrimPrefix input (lit "Test")) 0 0 [] false false in
  if negb (string_eqb getenv []) then set_debug p (Stream DebugWriter) else p.

Definition PrettifyFuel (fuel : nat) (getenv : gostring) (DebugWriter : Sink)
    (input : gostring) : result (gostring * prettifier) :=
  (log (LogInput input) ;;;
   run fuel (Some BetweenWords) ;;;
   p <- get ;;
   let result := Join (words p) (lit " ") in
   log (LogResult result) ;;;
   ret result) (newPrettifier getenv DebugWriter input).

(** Passes through the loop bodies are bounded by twice the number of
    runes, plus the pass that reads the end of the input. *)
Definition enough (input : gostring) : nat :=
  S (S (2 * length (TrimPrefix input (lit "Test")))).

Definition Prettify (getenv : gostring) (DebugWriter : Sink)
    (input : gostring) : result (gostring * prettifier) :=
  PrettifyFuel (enough input) getenv DebugWriter input.

(** The string a call returns. *)
Definition returned {A B} (r : result (A * B)) : result A :=
  match r with
  | Ok (a, _) => Ok a
  | Panic => Panic
  | OutOfFuel => OutOfFuel
  end.

End Machine.

(** ** Observing a run *)

Section Observing.

Context {U : UnicodeLib} {W : DebugSink}.

(** The configurations at the head of the state loop, the last one
    included: the state about to be called (or [nil]) and the struct. *)
Fixpoint configs (fuel : nat) (state : option stateFunc) (p : prettifier)
    : list (option stateFunc * prettifier) :=
  (state, p) ::
  match state, fuel with
  | Some s, S n =>
      match call s p with
      | Ok (state', p') => configs n state' p'
      | _ => []
      end
  | _, _ => []
  end.

(** The configurations of a call of [Prettify]. *)
Definition scan (getenv : gostring) (DebugWriter : Sink) (input : gostring)
    : list (option stateFunc * prettifier) :=
  match log (LogInput input) (newPrettifier getenv DebugWriter input) with
  | Ok (_, p) => configs (enough input) (Some BetweenWords) p
  | _ => []
  end.

(** The pass through [inWord] that calls [multiWordFunction]: the rune
    under the cursor is an underscore and neither flag is set. *)
Definition folds (c : option stateFunc * prettifier) : bool :=
  match c with
  | (Some InWord, p) =>
      match index (input p) (pos p) with
      | Some r => (r =? 95) && negb (seenUnderscore p) && negb (inSubTest p)
      | None => false
      end
  | _ => false
  end.

(** What holds of the cursor before each pass through a loop body. *)
Definition Inv (s : stateFunc) (p : prettifier) : Prop :=
  0 <= start p /\ pos p <= len (input p) /\
  match s with
  | BetweenWords => start p = pos p
  | InWord => start p < pos p
  end.

(** Passes still to come: two per rune not yet walked over, one more
    inside a word (for the pass that emits it). *)
Definition remaining (s : stateFunc) (p : prettifier) : nat :=
  (2 * Z.to_nat (len (input p) - pos p) +
   match s with BetweenWords => 0 | InWord => 1 end)%nat.

(** The rune under the cursor is the end of the input, as [peek] reports
    it: the cursor is at the end, or the rune there is 0. *)
Definition atEOF (p : prettifier) : Prop :=
  pos p = len (input p) \/ index (input p) (pos p) = Some eof.

(** The word [emit] appends: the runes from [start] to [pos], title-cased
    when first, otherwise as they are or lower-cased. *)
Definition Emits (p : prettifier) (w : gostring) : Prop :=
  exists rs, slice (input p) (start p) (pos p) = Some rs /\
    ((words p = [] /\ w = Title (string_of_runes rs)) \/
     (words p <> [] /\ (w = string_of_runes rs \/ w = Lower (string_of_runes rs)))).

(** One pass through a loop body, as a relation: from [p] in state [s] to
    the next state and struct.  [d] is the stream after the pass. *)
Inductive Step (p : prettifier) : stateFunc -> option stateFunc -> prettifier -> Prop :=
| StepStop d :
    atEOF p ->
    Step p BetweenWords None
      (mkPrettifier d (input p) (start p) (pos p + 1) (words p) (inSubTest p) (seenUnderscore p))
| StepSkip d r :
    index (input p) (pos p) = Some r -> r = 95 \/ r = 47 ->
    Step p BetweenWords (Some BetweenWords)
      (mkPrettifier d (input p) (pos p + 1) (pos p + 1) (words p) (inSubTest p) (seenUnderscore p))
| StepEnter d r :
    index (input p) (pos p) = Some r -> r <> eof -> r <> 95 -> r <> 47 ->
    Step p BetweenWords (Some InWord)
      (mkPrettifier d (input p) (start p) (pos p + 1) (words p) (inSubTest p) (seenUnderscore p))
| StepLast d w :
    atEOF p -> Emits p w ->
    Step p InWord None
      (mkPrettifier d (input p) (pos p) (pos p) (words p ++ [w]) (inSubTest p) (seenUnderscore p))
| StepFold d w :
    index (input p) (pos p) = Some 95 ->
    seenUnderscore p = false -> inSubTest p = false -> Emits p w ->
    Step p InWord (Some BetweenWords)
      (mkPrettifier d (input p) (pos p) (pos p)
         [fold_left (fun fname w => fname ++ Title w) (words p ++ [w]) []]
         (inSubTest p) true)
| StepUnderscore d w :
    index (input p) (pos p) = Some 95 ->
    seenUnderscore p = true \/ inSubTest p = true -> Emits p w ->
    Step p InWord (Some BetweenWords)
      (mkPrettifier d (input p) (pos p) (pos p) (words p ++ [w]) (inSubTest p) (seenUnderscore p))
| StepSlash d w :
    index (input p) (pos p) = Some 47 -> Emits p w ->
    Step p InWord (Some BetweenWords)
      (mkPrettifier d (input p) (pos p) (pos p) (words p ++ [w]) true (seenUnderscore p))
| StepWalk d r :
    index (input p) (pos p) = Some r -> r <> eof -> r <> 95 -> r <> 47 ->
    Step p InWord (Some InWord)
      (mkPrettifier d (input p) (start p) (pos p + 1) (words p) (inSubTest p) (seenUnderscore p))
| StepBreak d r w :
    index (input p) (pos p) = Some r -> r <> eof -> r <> 95 -> r <> 47 ->
    IsDigit r || IsUpper r = true -> Emits p w ->
    Step p InWord (Some BetweenWords)
      (mkPrettifier d (input p) (pos p) (pos p) (words p ++ [w]) (inSubTest p) (seenUnderscore p)).

(** What [Prettify] does around the loop. *)
Definition started (getenv : gostring) (DebugWriter : Sink) (i : gostring) (p0 : prettifier) : Prop :=
  log (LogInput i) (newPrettifier getenv DebugWriter i) = Ok (tt, p0) /\
  input p0 = TrimPrefix i (lit "Test") /\ start p0 = 0 /\ pos p0 = 0 /\
  words p0 = [] /\ inSubTest p0 = false /\ seenUnderscore p0 = false.

End Observing.

(** ** Running without a stream *)

(** The stream that keeps nothing. *)
Definition NullSink : DebugSink := {|
  Sink := unit;
  write := fun _ _ => tt
|}.

Section Erased.

Context {W : DebugSink}.

(** The struct without its stream. *)
Definition erase (p : prettifier (W := W)) : prettifier (W := NullSink) :=
  mkPrettifier (W := NullSink) (Discard (W := NullSink))
    (input p) (start p) (pos p) (words p) (inSubTest p) (seenUnderscore p).

(** Two results agree: the same value, and the same struct but for the
    stream. *)
Definition sim {A} (x : result (A * prettifier (W := W)))
    (y : result (A * prettifier (W := NullSink))) : Prop :=
  match x, y with
  | Ok (a, p), Ok (b, q) => a = b /\ erase p = q
  | Panic, Panic => True
  | OutOfFuel, OutOfFuel => True
  | _, _ => False
  end.

(** A method with a stream does what it does without one. *)
Definition Sim {A} (m : M (W := W) A) (n : M (W := NullSink) A) : Prop :=
  forall p, sim (m p) (n (erase p)).

End Erased.

(** A method keeps a property [P] of the stream. *)
Definition Keeps {W : DebugSink} (P : Writer -> Prop) {A} (m : M A) : Prop :=
  forall p a p', P (debug p) -> m p = Ok (a, p') -> P (debug p').

(** ** Spaces in the result *)

Definition leadingSpace (s : gostring) : bool :=
  match s with
  | r :: _ => r =? 32
  | [] => false
  end.

Definition trailingSpace (s : gostring) : bool := leadingSpace (rev s).

Fixpoint doubledSpace (s : gostring) : bool :=
  match s with
  | a :: t =>
      match t with
      | b :: _ => (a =? 32) && (b =? 32)
      | [] => false
      end || doubledSpace t
  | [] => false
  end.

(** A word with something in it and no space. *)
Definition solid (w : gostring) : Prop := w <> [] /\ ~ In 32 w.

(** Case mapping neither empties a word nor puts a space into it. *)
Definition KeepsWords (U : UnicodeLib) : Prop :=
  forall w, solid w -> solid (Title w) /\ solid (Lower w).

(** ** Word boundaries *)

(** The two runes the lexer treats as separators: underscore and slash. *)
Definition separator (r : rune) : bool := (r =? 95) || (r =? 47).

Definition separator_free (r : rune) : bool := negb (separator r).

Section Boundaries.

Context {U : UnicodeLib}.

(** The three tests of [inInitialism], on the rune [a] before the cursor
    and the rune [b] that [next] returns. *)
Definition initialismRun (a b : rune) : bool :=
  IsUpper a && (IsUpper b || IsDigit b || (b =? 115)).

(** The decision [inWord] takes on a rune [r] that is neither the end of
    the input nor a separator, [a] being the rune before it and [b] the
    rune [next] returns: [true] when [r] stays in the word being scanned,
    [false] when the word ends before it. *)
Definition joins (a r b : rune) : bool :=
  if IsDigit r then IsDigit a || (a =? 45) || (a =? 61) || initialismRun a b
  else if IsUpper r then initialismRun a b
  else true.


(** Case mapping puts no separator into a word that has none. *)
Definition KeepsSeparatorsOut : Prop :=
  forall w, forallb separator_free w = true ->
    forallb separator_free (Title w) = true /\ forallb separator_free (Lower w) = true.

End Boundaries.

(** ** Slices and indices *)

Lemma len_nonneg {A} (s : list A) : 0 <= len s.
Proof. unfold len. lia. Qed.

Lemma index_Some_iff (s : list rune) (i : Z) :
  0 <= i < len s -> exists r, index s i = Some r /\ In r s.
Proof.
  intros H. unfold index.
  replace ((0 <=? i) && (i <? len s)) with true
    by (symmetry; apply andb_true_iff; split; [apply Z.leb_le | apply Z.ltb_lt]; lia).
  destruct (nth_error s (Z.to_nat i)) eqn:E.
  - eexists; split; [reflexivity | eapply nth_error_In; eauto].
  - apply nth_error_None in E. unfold len in H. lia.
Qed.

Lemma index_bounds (s : list rune) (i : Z) (r : rune) :
  index s i = Some r -> 0 <= i < len s /\ In r s.
Proof.
  unfold index. destruct ((0 <=? i) && (i <? len s)) eqn:E; [|discriminate].
  apply andb_true_iff in E. destruct E as [E1 E2].
  apply Z.leb_le in E1. apply Z.ltb_lt in E2. intros H. split; [lia|].
  eapply nth_error_In; eauto.
Qed.

Lemma slice_Some (s : list rune) (lo hi : Z) :
  0 <= lo -> lo <= hi -> hi <= len s ->
  slice s lo hi = Some (firstn (Z.to_nat (hi - lo)) (skipn (Z.to_nat lo) s)).
Proof.
  intros H1 H2 H3. unfold slice.
  replace ((0 <=? lo) && (lo <=? hi) && (hi <=? len s)) with true; [reflexivity|].
  symmetry. rewrite !andb_true_iff. repeat split; apply Z.leb_le; lia.
Qed.

Lemma In_firstn {A} (n : nat) (l : list A) (x : A) : In x (firstn n l) -> In x l.
Proof.
  intros H. rewrite <- (firstn_skipn n l). apply in_or_app. now left.
Qed.

Lemma In_skipn {A} (n : nat) (l : list A) (x : A) : In x (skipn n l) -> In x l.
Proof.
  intros H. rewrite <- (firstn_skipn n l). apply in_or_app. now right.
Qed.

Lemma slice_inv (s : list rune) (lo hi : Z) (rs : list rune) :
  slice s lo hi = Some rs ->
  0 <= lo /\ lo <= hi /\ hi <= len s /\ len rs = hi - lo /\ (forall r, In r rs -> In r s).
Proof.
  unfold slice. destruct ((0 <=? lo) && (lo <=? hi) && (hi <=? len s)) eqn:E; [|discriminate].
  rewrite !andb_true_iff in E. destruct E as [[E1 E2] E3].
  apply Z.leb_le in E1, E2, E3. intros H. injection H as <-.
  repeat split; try lia.
  - unfold len in *. rewrite length_firstn, length_skipn. lia.
  - intros r Hr. apply In_firstn in Hr. eapply In_skipn; eauto.
Qed.

(** ** The methods do not panic inside the cursor bounds *)

Section Methods.

Context {U : UnicodeLib} {W : DebugSink}.

Lemma bind_Ok {A B} (m : M A) (f : A -> M B) (p p' : prettifier) (a : A) :
  m p = Ok (a, p') -> bind m f p = f a p'.
Proof. intros H. unfold bind. now rewrite H. Qed.

Lemma peek_ok (p : prettifier) :
  0 <= pos p -> pos p <= len (input p) ->
  exists r, peek p = Ok (r, p) /\
    ((pos p = len (input p) /\ r = eof) \/
     (pos p < len (input p) /\ index (input p) (pos p) = Some r)).
Proof.
  intros H0 H1. unfold peek, bind, get, ret, lift.
  destruct (len (input p) <=? pos p) eqn:E.
  - apply Z.leb_le in E. exists eof. split; [reflexivity | left; split; [lia | reflexivity]].
  - apply Z.leb_gt in E. destruct (index_Some_iff (input p) (pos p)) as (r & Hr & _); [lia|].
    exists r. rewrite Hr. split; [reflexivity | right; split; [lia | reflexivity]].
Qed.

Lemma walk_ok (p : prettifier) :
  0 <= pos p -> pos p <= len (input p) ->
  exists r, walk p = Ok (r, set_pos p (pos p + 1)) /\
    ((pos p = len (input p) /\ r = eof) \/
     (pos p < len (input p) /\ index (input p) (pos p) = Some r)).
Proof.
  intros H0 H1. destruct (peek_ok p H0 H1) as (r & Hp & Hr).
  exists r. split; [|exact Hr].
  unfold walk. rewrite (bind_Ok _ _ _ _ _ Hp). reflexivity.
Qed.

Lemma prev_ok (p : prettifier) :
  1 <= pos p -> pos p <= len (input p) -> exists r, prev p = Ok (r, p).
Proof.
  intros H0 H1. unfold prev, bind, get, lift.
  destruct (index_Some_iff (input p) (pos p - 1)) as (r & Hr & _); [lia|].
  exists r. now rewrite Hr.
Qed.

Lemma next_ok (p : prettifier) :
  0 <= pos p -> pos p < len (input p) -> exists r, next p = Ok (r, p).
Proof.
  intros H0 H1. unfold next, bind, get, lift.
  destruct (len (input p) <=? pos p + 1) eqn:E.
  - destruct (index_Some_iff (input p) (pos p)) as (r & Hr & _); [lia|].
    exists r. now rewrite Hr.
  - apply Z.leb_gt in E.
    destruct (index_Some_iff (input p) (pos p + 1)) as (r & Hr & _); [lia|].
    exists r. now rewrite Hr.
Qed.

Lemma prevUpperAnd_ok (f : rune -> bool) (p : prettifier) :
  1 <= pos p -> pos p < len (input p) -> exists b, prevUpperAnd f p = Ok (b, p).
Proof.
  intros H0 H1. unfold prevUpperAnd.
  destruct (prev_ok p) as (a & Ha); [lia | lia |].
  rewrite (bind_Ok _ _ _ _ _ Ha).
  destruct (IsUpper a).
  - destruct (next_ok p) as (b & Hb); [lia | lia |].
    rewrite (bind_Ok _ _ _ _ _ Hb). eexists; reflexivity.
  - eexists; reflexivity.
Qed.

Lemma inInitialism_ok (p : prettifier) :
  1 <= pos p -> pos p < len (input p) -> exists b, inInitialism p = Ok (b, p).
Proof.
  intros H0 H1. unfold inInitialism.
  destruct (prevUpperAnd_ok IsUpper p H0 H1) as (c1 & E1).
  rewrite (bind_Ok _ _ _ _ _ E1). destruct c1; [eexists; reflexivity|].
  destruct (prevUpperAnd_ok IsDigit p H0 H1) as (c2 & E2).
  rewrite (bind_Ok _ _ _ _ _ E2). destruct c2; [eexists; reflexivity|].
  destruct (prevUpperAnd_ok (fun r => r =? 115) p H0 H1) as (c3 & E3).
  rewrite (bind_Ok _ _ _ _ _ E3). destruct c3; eexists; reflexivity.
Qed.

(** Inside a word the window of [isInitialism] is [start .. pos-1] and its
    last rune is the last rune walked over. *)
Lemma isInitialism_eq (p : prettifier) :
  0 <= start p -> start p < pos p -> pos p <= len (input p) ->
  exists rs r,
    slice (input p) (start p) (pos p - 1) = Some rs /\
    index (input p) (pos p - 1) = Some r /\
    isInitialism p =
      Ok (if existsb IsLower rs then false
          else IsUpper r || IsDigit r || (r =? 115), p).
Proof.
  intros H0 H1 H2. unfold isInitialism, bind, get, lift, ret.
  replace (pos p - 1 <? start p) with false by (symmetry; apply Z.ltb_ge; lia).
  rewrite (slice_Some (input p) (start p) (pos p - 1)) by lia.
  destruct (index_Some_iff (input p) (pos p - 1)) as (r & Hr & _); [lia|].
  rewrite Hr. eexists; exists r. split; [reflexivity|]. split; [reflexivity|].
  destruct (existsb IsLower _); reflexivity.
Qed.

Lemma isInitialism_ok (p : prettifier) :
  0 <= start p -> start p < pos p -> pos p <= len (input p) ->
  exists b, isInitialism p = Ok (b, p).
Proof.
  intros H0 H1 H2. destruct (isInitialism_eq p H0 H1 H2) as (rs & r & _ & _ & E).
  eexists; exact E.
Qed.

Lemma logState_ok (n : string) (p : prettifier) :
  0 <= start p -> start p <= pos p -> pos p <= len (input p) ->
  exists d, logState n p = Ok (tt, set_debug p d).
Proof.
  intros H0 H1 H2. unfold logState, bind, get, lift, ret, log, modify.
  rewrite (slice_Some (input p) (start p) (pos p)) by lia.
  destruct (pos p <? len (input p)) eqn:E.
  - apply Z.ltb_lt in E.
    destruct (index_Some_iff (input p) (pos p)) as (r & Hr & _); [lia|].
    rewrite Hr. eexists; reflexivity.
  - eexists; reflexivity.
Qed.

Lemma emit_ok (p : prettifier) :
  0 <= start p -> start p < pos p -> pos p <= len (input p) ->
  exists d w,
    emit p = Ok (tt, mkPrettifier d (input p) (pos p) (pos p) (words p ++ [w])
                       (inSubTest p) (seenUnderscore p)) /\
    Emits p w.
Proof.
  intros H0 H1 H2.
  destruct (isInitialism_ok p H0 H1 H2) as (b & Hb).
  unfold emit, Emits, bind, get, lift, ret, log, modify, skip.
  rewrite (slice_Some (input p) (start p) (pos p)) by lia.
  set (rs := firstn _ _).
  destruct (len (words p) =? 0) eqn:E0.
  - apply Z.eqb_eq in E0. assert (words p = []) as Hw
      by (destruct (words p); [reflexivity | unfold len in E0; simpl in E0; lia]).
    eexists; eexists. split; [reflexivity|]. exists rs. split; [reflexivity|]. now left.
  - assert (words p <> []) as Hw by (intros Hw; rewrite Hw in E0; discriminate).
    destruct (len_string (string_of_runes rs) <? 3).
    + destruct (string_eqb (string_of_runes rs) (lit "OK"));
        (eexists; eexists; split; [reflexivity|]; exists rs; split; [reflexivity|]; right; split; auto).
    + rewrite Hb. destruct b;
        (eexists; eexists; split; [reflexivity|]; exists rs; split; [reflexivity|]; right; split; auto).
Qed.

End Methods.

(** ** Every pass is a step *)

Section Steps.

Context {U : UnicodeLib} {W : DebugSink}.

Lemma betweenWords_Step (p : prettifier) :
  Inv BetweenWords p ->
  exists s' p', betweenWords p = Ok (s', p') /\ Step p BetweenWords s' p'.
Proof.
  intros (H0 & H1 & H2).
  destruct (logState_ok "betweenWords" p) as (d & Hlog); [lia | lia | lia |].
  unfold betweenWords. rewrite (bind_Ok _ _ _ _ _ Hlog).
  destruct p as [d0 inp st ps ws sub seen]; cbn [set_debug input start pos words inSubTest seenUnderscore] in *.
  set (p := mkPrettifier d0 inp st ps ws sub seen).
  destruct (walk_ok (mkPrettifier d inp st ps ws sub seen)) as (r & Hw & Hr);
    cbn [input pos] in *; [lia | lia |].
  rewrite (bind_Ok _ _ _ _ _ Hw). cbn [set_pos input start pos words inSubTest seenUnderscore debug].
  destruct (r =? eof) eqn:Eeof.
  - apply Z.eqb_eq in Eeof. subst r. eexists; eexists. split; [reflexivity|].
    apply (StepStop p d). unfold atEOF; cbn [p input pos]. destruct Hr as [[Hr _] | [_ Hr]]; auto.
  - apply Z.eqb_neq in Eeof. destruct Hr as [[_ Hr] | [Hlt Hr]]; [contradiction|].
    destruct ((r =? 95) || (r =? 47)) eqn:Esep.
    + unfold bind, skip, modify, ret; cbn [set_start input start pos words inSubTest seenUnderscore debug].
      eexists; eexists. split; [reflexivity|].
      apply (StepSkip p d r); cbn [p input pos]; auto.
      apply orb_true_iff in Esep. destruct Esep as [E | E]; apply Z.eqb_eq in E; auto.
    + apply orb_false_iff in Esep. destruct Esep as [E1 E2].
      apply Z.eqb_neq in E1, E2.
      eexists; eexists. split; [reflexivity|].
      apply (StepEnter p d r); cbn [p input pos]; auto.
Qed.

Lemma Emits_set_debug (p : prettifier) (d : Writer) (w : gostring) :
  Emits (set_debug p d) w -> Emits p w.
Proof. intros H. exact H. Qed.

Lemma inWord_Step (p : prettifier) :
  Inv InWord p ->
  exists s' p', inWord p = Ok (s', p') /\ Step p InWord s' p'.
Proof.
  intros (H0 & H1 & H2).
  destruct (logState_ok "inWord" p) as (d & Hlog); [lia | lia | lia |].
  unfold inWord. rewrite (bind_Ok _ _ _ _ _ Hlog).
  destruct p as [d0 inp st ps ws sub seen]; cbn [set_debug input start pos words inSubTest seenUnderscore] in *.
  set (q := mkPrettifier d inp st ps ws sub seen).
  set (p := mkPrettifier d0 inp st ps ws sub seen).
  destruct (peek_ok q) as (r & Hp & Hr); cbn [q input pos] in *; [lia | lia |].
  rewrite (bind_Ok _ _ _ _ _ Hp).
  destruct (emit_ok q) as (de & w & Hemit & Hw); cbn [q input start pos] in *; [lia | lia | lia |].
  apply (Emits_set_debug p d) in Hw.
  cbn [words inSubTest seenUnderscore] in Hemit.
  destruct (walk_ok q) as (r' & Hwalk & Hr'); cbn [q input pos] in *; [lia | lia |].
  assert (r' = r) as -> by
    (destruct Hr as [[Ha Hb] | [Ha Hb]], Hr' as [[Hc Hd] | [Hc Hd]]; try lia; congruence).
  clear Hr'. cbn [set_pos input start pos words inSubTest seenUnderscore debug] in Hwalk.
  assert (forall s : option stateFunc, bind emit (fun _ => ret s) q =
            Ok (s, mkPrettifier de inp ps ps (ws ++ [w]) sub seen)) as Hemit_ret
    by (intros s; rewrite (bind_Ok _ _ _ _ _ Hemit); reflexivity).
  assert (bind walk (fun _ => ret (Some InWord)) q =
            Ok (Some InWord, mkPrettifier d inp st (ps + 1) ws sub seen)) as Hwalk_ret
    by (rewrite (bind_Ok _ _ _ _ _ Hwalk); reflexivity).
  destruct (r =? eof) eqn:Eeof.
  { apply Z.eqb_eq in Eeof. subst r. rewrite Hemit_ret.
    eexists; eexists. split; [reflexivity|].
    apply (StepLast p de w); auto.
    unfold atEOF; cbn [p input pos]. destruct Hr as [[Hr _] | [_ Hr]]; auto. }
  apply Z.eqb_neq in Eeof. destruct Hr as [[_ Hr] | [Hlt Hr]]; [contradiction|].
  destruct (r =? 95) eqn:E95.
  { apply Z.eqb_eq in E95. subst r. rewrite (bind_Ok _ _ _ _ _ Hemit).
    unfold bind at 1, get at 1. cbn [seenUnderscore inSubTest].
    destruct seen; [|destruct sub]; cbn [negb andb].
    - eexists; eexists. split; [reflexivity|]. apply (StepUnderscore p de w); auto.
    - eexists; eexists. split; [reflexivity|]. apply (StepUnderscore p de w); auto.
    - unfold multiWordFunction, bind, get, log, modify, ret.
      cbn [set_debug set_words set_seenUnderscore input start pos words inSubTest seenUnderscore debug].
      eexists; eexists. split; [reflexivity|]. apply (StepFold p _ w); auto. }
  apply Z.eqb_neq in E95.
  destruct (r =? 47) eqn:E47.
  { apply Z.eqb_eq in E47. subst r. rewrite (bind_Ok _ _ _ _ _ Hemit).
    unfold bind, modify, ret.
    cbn [set_inSubTest input start pos words inSubTest seenUnderscore debug].
    eexists; eexists. split; [reflexivity|]. apply (StepSlash p de w); auto. }
  apply Z.eqb_neq in E47.
  assert (exists s' p', Ok (Some InWord, mkPrettifier d inp st (ps + 1) ws sub seen) = Ok (s', p') /\
            Step p InWord s' p') as Gwalk.
  { eexists; eexists. split; [reflexivity|]. apply (StepWalk p d r); auto. }
  assert (IsDigit r || IsUpper r = true ->
          exists s' p', Ok (Some BetweenWords, mkPrettifier de inp ps ps (ws ++ [w]) sub seen) = Ok (s', p') /\
            Step p InWord s' p') as Gbreak.
  { intros Hc. eexists; eexists. split; [reflexivity|]. apply (StepBreak p de r w); auto. }
  destruct (inInitialism_ok q) as (b & Hb); cbn [q input pos]; [lia | lia |].
  destruct (prev_ok q) as (a & Ha); cbn [q input pos]; [lia | lia |].
  destruct (IsDigit r) eqn:Edig.
  { rewrite (bind_Ok _ _ _ _ _ Ha).
    destruct (IsDigit a); [rewrite Hwalk_ret; exact Gwalk|].
    rewrite (bind_Ok _ _ _ _ _ Ha).
    destruct (a =? 45); [rewrite Hwalk_ret; exact Gwalk|].
    rewrite (bind_Ok _ _ _ _ _ Ha).
    destruct (a =? 61); [rewrite Hwalk_ret; exact Gwalk|].
    rewrite (bind_Ok _ _ _ _ _ Hb).
    destruct b; [rewrite Hwalk_ret; exact Gwalk|].
    rewrite Hemit_ret. apply Gbreak. reflexivity. }
  destruct (IsUpper r) eqn:Eup.
  { rewrite (bind_Ok _ _ _ _ _ Hb).
    destruct b; [rewrite Hwalk_ret; exact Gwalk|].
    rewrite Hemit_ret. apply Gbreak. reflexivity. }
  rewrite Hwalk_ret. exact Gwalk.
Qed.

Lemma call_Step (s : stateFunc) (p : prettifier) :
  Inv s p -> exists s' p', call s p = Ok (s', p') /\ Step p s s' p'.
Proof.
  destruct s; [apply betweenWords_Step | apply inWord_Step].
Qed.

End Steps.

(** ** The state loop *)

Section Loop.

Context {U : UnicodeLib} {W : DebugSink}.

Lemma Step_input (p p' : prettifier) (s : stateFunc) (s' : option stateFunc) :
  Step p s s' p' -> input p' = input p.
Proof. intros H. destruct H; reflexivity. Qed.

Lemma Step_Inv (p p' : prettifier) (s s' : stateFunc) :
  Inv s p -> Step p s (Some s') p' ->
  Inv s' p' /\ (remaining s' p' < remaining s p)%nat.
Proof.
  intros (H0 & H1 & H2) H. unfold Inv, remaining.
  inversion H; subst; cbn [input start pos];
    repeat match goal with
           | E : index _ _ = Some _ |- _ => apply index_bounds in E; destruct E as [E _]
           end;
    (split; [repeat split; lia | lia]).
Qed.

Lemma Step_pos (p p' : prettifier) (s : stateFunc) (s' : option stateFunc) :
  Step p s s' p' -> pos p <= pos p' /\ pos p' <= pos p + 1.
Proof. intros H. destruct H; cbn [pos]; lia. Qed.

(** A pass that returns a state leaves fewer passes to come, and never
    moves the cursor back. *)
Lemma pass_decreases (s s' : stateFunc) (p p' : prettifier) :
  Inv s p -> call s p = Ok (Some s', p') ->
  Inv s' p' /\ (remaining s' p' < remaining s p)%nat /\ pos p <= pos p'.
Proof.
  intros Hinv Hcall. destruct (call_Step s p Hinv) as (s0 & p0 & Hcall0 & Hstep).
  rewrite Hcall in Hcall0. injection Hcall0 as <- <-.
  destruct (Step_Inv _ _ _ _ Hinv Hstep) as (Hinv' & Hlt).
  repeat split; try apply Hinv'; [exact Hlt | apply (Step_pos _ _ _ _ Hstep)].
Qed.

Lemma Step_final (p p' : prettifier) (s : stateFunc) :
  Inv s p -> Step p s None p' ->
  0 <= start p' /\ start p' <= pos p' /\ pos p' <= len (input p') + 1.
Proof.
  intros (H0 & H1 & H2) H. inversion H; subst; cbn [input start pos]; lia.
Qed.

(** A property of the configurations that every step keeps holds at the
    end of the loop, which is reached within [remaining] passes. *)
Lemma run_invariant (I : option stateFunc -> prettifier -> Prop) :
  (forall s p s' p', Inv s p -> I (Some s) p -> Step p s s' p' -> I s' p') ->
  forall fuel s p,
    Inv s p -> I (Some s) p -> (remaining s p < fuel)%nat ->
    exists p', run fuel (Some s) p = Ok (tt, p') /\ I None p'.
Proof.
  intros HI. induction fuel as [|n IH]; intros s p Hinv Hp Hfuel; [lia|].
  destruct (call_Step s p Hinv) as (s' & p' & Hcall & Hstep).
  cbn [run]. rewrite (bind_Ok _ _ _ _ _ Hcall).
  pose proof (HI _ _ _ _ Hinv Hp Hstep) as Hp'.
  destruct s' as [s'|].
  - destruct (Step_Inv _ _ _ _ Hinv Hstep) as (Hinv' & Hlt).
    apply IH; auto. lia.
  - exists p'. split; [destruct n; reflexivity | exact Hp'].
Qed.

Lemma run_no_panic (fuel : nat) (s : stateFunc) (p : prettifier) :
  Inv s p -> run fuel (Some s) p <> Panic.
Proof.
  revert s p. induction fuel as [|n IH]; intros s p Hinv; [discriminate|].
  destruct (call_Step s p Hinv) as (s' & p' & Hcall & Hstep).
  cbn [run]. rewrite (bind_Ok _ _ _ _ _ Hcall).
  destruct s' as [s'|].
  - apply IH. eapply Step_Inv; eauto.
  - destruct n; discriminate.
Qed.

(** More fuel than the passes needed changes nothing. *)
Lemma run_more_fuel (fuel k : nat) (s : option stateFunc) (p : prettifier) (r : unit * prettifier) :
  run fuel s p = Ok r -> run (fuel + k) s p = Ok r.
Proof.
  revert s p. induction fuel as [|n IH]; intros s p H.
  - destruct s; [discriminate|]. destruct k; exact H.
  - destruct s as [s|]; [|exact H].
    cbn [run Nat.add] in *. unfold bind in *.
    destruct (call s p) as [[s' p']| |]; try discriminate. now apply IH.
Qed.

(** The same for every configuration the loop goes through. *)
Lemma configs_invariant (I : option stateFunc -> prettifier -> Prop) :
  (forall s p s' p', Inv s p -> I (Some s) p -> Step p s s' p' -> I s' p') ->
  forall fuel s p,
    Inv s p -> I (Some s) p ->
    Forall (fun c => I (fst c) (snd c)) (configs fuel (Some s) p).
Proof.
  intros HI. induction fuel as [|n IH]; intros s p Hinv Hp.
  - constructor; [exact Hp | constructor].
  - cbn [configs]. constructor; [exact Hp|].
    destruct (call_Step s p Hinv) as (s' & p' & Hcall & Hstep). rewrite Hcall.
    pose proof (HI _ _ _ _ Hinv Hp Hstep) as Hp'.
    destruct s' as [s'|].
    + apply IH; auto. eapply Step_Inv; eauto.
    + destruct n; (constructor; [exact Hp' | constructor]).
Qed.

Lemma Prettify_started (getenv : gostring) (DebugWriter : Sink) (i : gostring) :
  exists p0, started getenv DebugWriter i p0.
Proof.
  unfold started, newPrettifier, log, modify.
  destruct (negb (string_eqb getenv [])); eexists; repeat split.
Qed.

Lemma started_Inv (getenv : gostring) (DebugWriter : Sink) (i : gostring) (p0 : prettifier) :
  started getenv DebugWriter i p0 ->
  Inv BetweenWords p0 /\ (remaining BetweenWords p0 < enough i)%nat.
Proof.
  intros (_ & Hi & Hs & Hp & _). unfold Inv, remaining, enough.
  rewrite Hi, Hs, Hp. pose proof (len_nonneg (TrimPrefix i (lit "Test"))) as Hl.
  split; [repeat split; lia|]. unfold len in *. lia.
Qed.

Lemma PrettifyFuel_eq (fuel : nat) (getenv : gostring) (DebugWriter : Sink) (i : gostring)
    (p0 : prettifier) :
  started getenv DebugWriter i p0 ->
  PrettifyFuel fuel getenv DebugWriter i =
  match run fuel (Some BetweenWords) p0 with
  | Ok (_, p) =>
      Ok (Join (words p) (lit " "),
          set_debug p (Fprintln (debug p) (LogResult (Join (words p) (lit " ")))))
  | Panic => Panic
  | OutOfFuel => OutOfFuel
  end.
Proof.
  intros (Hlog & _). unfold PrettifyFuel. rewrite (bind_Ok _ _ _ _ _ Hlog).
  unfold bind at 1. destruct (run fuel (Some BetweenWords) p0) as [[[] p]| |]; reflexivity.
Qed.

Lemma scan_eq (getenv : gostring) (DebugWriter : Sink) (i : gostring) (p0 : prettifier) :
  started getenv DebugWriter i p0 ->
  scan getenv DebugWriter i = configs (enough i) (Some BetweenWords) p0.
Proof. intros (Hlog & _). unfold scan. now rewrite Hlog. Qed.

(** The loop of [Prettify] ends, and a property kept by every step holds
    of the struct it leaves. *)
Lemma Prettify_invariant (I : option stateFunc -> prettifier -> Prop)
    (getenv : gostring) (DebugWriter : Sink) (i : gostring) (k : nat) :
  (forall s p s' p', Inv s p -> I (Some s) p -> Step p s s' p' -> I s' p') ->
  (forall p0, started getenv DebugWriter i p0 -> I (Some BetweenWords) p0) ->
  exists p d,
    PrettifyFuel (enough i + k) getenv DebugWriter i =
      Ok (Join (words p) (lit " "), set_debug p d) /\
    input p = TrimPrefix i (lit "Test") /\ I None p.
Proof.
  intros HI H0. destruct (Prettify_started getenv DebugWriter i) as (p0 & Hp0).
  destruct (started_Inv _ _ _ _ Hp0) as (Hinv & Hfuel).
  destruct (run_invariant (fun s p => I s p /\ input p = input p0)) with
    (fuel := enough i) (s := BetweenWords) (p := p0) as (p & Hrun & Hp & Hin); auto.
  { intros s q s' q' Hq (Hq1 & Hq2) Hstep. split; [eapply HI; eauto|].
    rewrite (Step_input _ _ _ _ Hstep). exact Hq2. }
  rewrite (PrettifyFuel_eq _ _ _ _ _ Hp0), (run_more_fuel _ k _ _ _ Hrun).
  exists p. eexists. split; [reflexivity|]. split; [|exact Hp].
  rewrite Hin. apply Hp0.
Qed.

(** With enough fuel the configurations end with the nil state, and the
    struct there is the one the loop leaves. *)
Lemma configs_end (fuel : nat) (s : stateFunc) (p : prettifier) :
  Inv s p -> (remaining s p < fuel)%nat ->
  exists pre p', configs fuel (Some s) p = pre ++ [(None, p')] /\
    run fuel (Some s) p = Ok (tt, p').
Proof.
  revert s p. induction fuel as [|n IH]; intros s p Hinv Hfuel; [lia|].
  destruct (call_Step s p Hinv) as (s' & p' & Hcall & Hstep).
  cbn [configs run]. rewrite Hcall, (bind_Ok _ _ _ _ _ Hcall).
  destruct s' as [s'|].
  - destruct (Step_Inv _ _ _ _ Hinv Hstep) as (Hinv' & Hlt).
    destruct (IH s' p' Hinv') as (pre & q & Hc & Hr); [lia|].
    exists ((Some s, p) :: pre), q. rewrite Hc. split; [reflexivity | exact Hr].
  - exists [(Some s, p)], p'. split; destruct n; reflexivity.
Qed.

End Loop.

(** ** The stream does not steer the machine *)

Section Erasure.

Context {U : UnicodeLib} {W : DebugSink}.

Lemma Sim_ret {A} (a : A) : Sim (ret a) (ret a).
Proof. intros p. split; reflexivity. Qed.

Lemma Sim_bind {A B} (m : M A) (n : M (W := NullSink) A)
    (f : A -> M B) (g : A -> M (W := NullSink) B) :
  Sim m n -> (forall a, Sim (f a) (g a)) -> Sim (bind m f) (bind n g).
Proof.
  intros Hm Hf p. unfold bind. specialize (Hm p). unfold sim in Hm.
  destruct (m p) as [[a p']| |], (n (erase p)) as [[b q']| |]; try contradiction; auto.
  destruct Hm as [<- <-]. apply Hf.
Qed.

Lemma Sim_get_bind {B} (f : prettifier -> M B)
    (g : prettifier (W := NullSink) -> M (W := NullSink) B) :
  (forall p, sim (f p p) (g (erase p) (erase p))) -> Sim (bind get f) (bind get g).
Proof. intros H p. apply H. Qed.

Lemma Sim_lift {A} (o : option A) : Sim (lift o) (lift o).
Proof. intros p. unfold lift. destruct o; simpl; auto. Qed.

Lemma Sim_modify (f : prettifier -> prettifier)
    (g : prettifier (W := NullSink) -> prettifier (W := NullSink)) :
  (forall p, erase (f p) = g (erase p)) -> Sim (modify f) (modify g).
Proof. intros H p. split; [reflexivity | apply H]. Qed.

Lemma Sim_if {A} (b : bool) (m m' : M A) (n n' : M (W := NullSink) A) :
  Sim m n -> Sim m' n' -> Sim (if b then m else m') (if b then n else n').
Proof. destruct b; auto. Qed.

Lemma skip_Sim : Sim skip skip.
Proof. apply Sim_modify. reflexivity. Qed.

Lemma log_Sim (l : logLine) : Sim (log l) (log l).
Proof. apply Sim_modify. reflexivity. Qed.

Lemma prev_Sim : Sim prev prev.
Proof. apply Sim_get_bind. intros p. apply Sim_lift. Qed.

Lemma peek_Sim : Sim peek peek.
Proof.
  apply Sim_get_bind. intros p. cbn [erase input pos].
  destruct (len (input p) <=? pos p); [apply Sim_ret | apply Sim_lift].
Qed.

Lemma walk_Sim : Sim walk walk.
Proof.
  apply Sim_bind; [apply peek_Sim|]. intros r.
  apply Sim_bind; [apply Sim_modify; reflexivity|]. intros _. apply Sim_ret.
Qed.

Lemma next_Sim : Sim next next.
Proof.
  apply Sim_get_bind. intros p. cbn [erase input pos].
  destruct (len (input p) <=? pos p + 1); apply Sim_lift.
Qed.

Lemma isInitialism_Sim : Sim isInitialism isInitialism.
Proof.
  apply Sim_get_bind. intros p. cbn [erase input pos start].
  apply Sim_bind; [apply Sim_lift|]. intros rs.
  apply Sim_if; [apply Sim_ret|].
  apply Sim_bind; [apply Sim_lift|]. intros r. apply Sim_ret.
Qed.

Lemma prevUpperAnd_Sim (f : rune -> bool) : Sim (prevUpperAnd f) (prevUpperAnd f).
Proof.
  apply Sim_bind; [apply prev_Sim|]. intros a.
  apply Sim_if; [|apply Sim_ret].
  apply Sim_bind; [apply next_Sim|]. intros b. apply Sim_ret.
Qed.

Lemma inInitialism_Sim : Sim inInitialism inInitialism.
Proof.
  apply Sim_bind; [apply prevUpperAnd_Sim|]. intros c1.
  apply Sim_if; [apply Sim_ret|].
  apply Sim_bind; [apply prevUpperAnd_Sim|]. intros c2.
  apply Sim_if; [apply Sim_ret|].
  apply Sim_bind; [apply prevUpperAnd_Sim|]. intros c3.
  apply Sim_if; apply Sim_ret.
Qed.

Lemma emit_Sim : Sim emit emit.
Proof.
  apply Sim_get_bind. intros p. cbn [erase input pos start words].
  apply Sim_bind; [apply Sim_lift|]. intros w.
  apply Sim_bind.
  - apply Sim_if; [apply Sim_ret|].
    apply Sim_if; [apply Sim_if; apply Sim_ret|].
    apply Sim_bind; [apply isInitialism_Sim|]. intros b. apply Sim_if; apply Sim_ret.
  - intros word. apply Sim_bind; [apply log_Sim|]. intros _.
    apply Sim_bind; [apply Sim_modify; reflexivity|]. intros _. apply skip_Sim.
Qed.

Lemma multiWordFunction_Sim : Sim multiWordFunction multiWordFunction.
Proof.
  apply Sim_get_bind. intros p. cbn [erase words].
  apply Sim_bind; [apply log_Sim|]. intros _.
  apply Sim_bind; [apply Sim_modify; reflexivity|]. intros _.
  apply Sim_modify. reflexivity.
Qed.

Lemma logState_Sim (n : string) : Sim (logState n) (logState n).
Proof.
  apply Sim_get_bind. intros p. cbn [erase input pos start].
  apply Sim_bind.
  - apply Sim_if; [|apply Sim_ret].
    apply Sim_bind; [apply Sim_lift|]. intros r. apply Sim_ret.
  - intros nx. apply Sim_bind; [apply Sim_lift|]. intros w. apply log_Sim.
Qed.

Lemma betweenWords_Sim : Sim betweenWords betweenWords.
Proof.
  apply Sim_bind; [apply logState_Sim|]. intros _.
  apply Sim_bind; [apply walk_Sim|]. intros r.
  apply Sim_if; [apply Sim_ret|].
  apply Sim_if; [|apply Sim_ret].
  apply Sim_bind; [apply skip_Sim|]. intros _. apply Sim_ret.
Qed.

Lemma inWord_Sim : Sim inWord inWord.
Proof.
  assert (Sim (bind walk (fun _ => ret (Some InWord))) (bind walk (fun _ => ret (Some InWord)))) as Hwalk
    by (apply Sim_bind; [apply walk_Sim | intros _; apply Sim_ret]).
  assert (forall s : option stateFunc,
            Sim (bind emit (fun _ => ret s)) (bind emit (fun _ => ret s))) as Hemit
    by (intros s; apply Sim_bind; [apply emit_Sim | intros _; apply Sim_ret]).
  apply Sim_bind; [apply logState_Sim|]. intros _.
  apply Sim_bind; [apply peek_Sim|]. intros r.
  apply Sim_if; [apply Hemit|].
  apply Sim_if.
  { apply Sim_bind; [apply emit_Sim|]. intros _.
    apply Sim_get_bind. intros p. cbn [erase seenUnderscore inSubTest].
    apply Sim_bind; [|intros _; apply Sim_ret].
    apply Sim_if; [apply multiWordFunction_Sim | apply Sim_ret]. }
  apply Sim_if.
  { apply Sim_bind; [apply emit_Sim|]. intros _.
    apply Sim_bind; [apply Sim_modify; reflexivity|]. intros _. apply Sim_ret. }
  apply Sim_if.
  { apply Sim_bind; [apply prev_Sim|]. intros a. apply Sim_if; [apply Hwalk|].
    apply Sim_bind; [apply prev_Sim|]. intros a1. apply Sim_if; [apply Hwalk|].
    apply Sim_bind; [apply prev_Sim|]. intros a2. apply Sim_if; [apply Hwalk|].
    apply Sim_bind; [apply inInitialism_Sim|]. intros b.
    apply Sim_if; [apply Hwalk | apply Hemit]. }
  apply Sim_if; [|apply Hwalk].
  apply Sim_bind; [apply inInitialism_Sim|]. intros b.
  apply Sim_if; [apply Hwalk | apply Hemit].
Qed.

Lemma call_Sim (s : stateFunc) : Sim (call s) (call s).
Proof. destruct s; [apply betweenWords_Sim | apply inWord_Sim]. Qed.

Lemma run_Sim (fuel : nat) (s : option stateFunc) : Sim (run fuel s) (run fuel s).
Proof.
  revert s. induction fuel as [|n IH]; intros [s|]; cbn [run];
    try apply Sim_ret; try (intros p; exact I).
  apply Sim_bind; [apply call_Sim | intros s'; apply IH].
Qed.

(** The string [Prettify] returns is the one it returns with no stream
    at all. *)
Lemma PrettifyFuel_erased (fuel : nat) (getenv : gostring) (DebugWriter : Sink)
    (i : gostring) :
  returned (PrettifyFuel fuel getenv DebugWriter i) =
  returned (PrettifyFuel (W := NullSink) fuel [] tt i).
Proof.
  assert (Sim (bind (log (LogInput i)) (fun _ =>
                 bind (run fuel (Some BetweenWords)) (fun _ =>
                 bind get (fun p =>
                   bind (log (LogResult (Join (words p) (lit " ")))) (fun _ =>
                   ret (Join (words p) (lit " ")))))))
              (bind (log (LogInput i)) (fun _ =>
                 bind (run fuel (Some BetweenWords)) (fun _ =>
                 bind get (fun p =>
                   bind (log (LogResult (Join (words p) (lit " ")))) (fun _ =>
                   ret (Join (words p) (lit " ")))))))) as H.
  { apply Sim_bind; [apply log_Sim|]. intros _.
    apply Sim_bind; [apply run_Sim|]. intros _.
    apply Sim_get_bind. intros p. cbn [erase words].
    apply Sim_bind; [apply log_Sim|]. intros _. apply Sim_ret. }
  specialize (H (newPrettifier getenv DebugWriter i)).
  unfold PrettifyFuel.
  replace (newPrettifier (W := NullSink) [] tt i)
    with (erase (newPrettifier getenv DebugWriter i))
    by (unfold newPrettifier; destruct (negb (string_eqb getenv [])); reflexivity).
  unfold sim in H.
  destruct (bind _ _ (newPrettifier getenv DebugWriter i)) as [[a p]| |],
           (bind _ _ (erase (newPrettifier getenv DebugWriter i))) as [[b q]| |];
    try contradiction; try reflexivity.
  destruct H as [-> _]. reflexivity.
Qed.

End Erasure.

(** With the switch set, the stream receives what the program prints for
    "TestFoo" (latest line first), and the result is the same. *)
Example debug_trace_of_TestFoo :
  exists p,
    Prettify (U := Latin1Lib) (W := TraceSink) (lit "1") [] (lit "TestFoo") =
      Ok (lit "Foo", p) /\
    debug p =
      Stream (W := TraceSink)
        [LogResult (lit "Foo");
         LogEmit (lit "Foo");
         LogState "inWord" (lit "Foo") (lit "EOF");
         LogState "inWord" (lit "Fo") (lit "o");
         LogState "inWord" (lit "F") (lit "o");
         LogState "betweenWords" (lit "") (lit "F");
         LogInput (lit "TestFoo")].
Proof.
  eexists. split; vm_compute; reflexivity.
Qed.

(** ** Words without spaces *)

Lemma string_of_rune_space (r : rune) : string_of_rune r = 32 -> r = 32.
Proof. unfold string_of_rune, RuneError. destruct (ValidRune r); [auto | discriminate]. Qed.

Lemma solid_string_of_runes (rs : list rune) :
  rs <> [] -> ~ In 32 rs -> solid (string_of_runes rs).
Proof.
  intros Hne Hsp. split.
  - destruct rs; [contradiction | discriminate].
  - intros H. apply in_map_iff in H. destruct H as (r & Hr & Hin).
    apply string_of_rune_space in Hr. subst r. contradiction.
Qed.

Lemma leadingSpace_app (a b : gostring) :
  a <> [] -> leadingSpace (a ++ b) = leadingSpace a.
Proof. destruct a; [contradiction | reflexivity]. Qed.

Lemma trailingSpace_app (a b : gostring) :
  b <> [] -> trailingSpace (a ++ b) = trailingSpace b.
Proof.
  intros Hb. unfold trailingSpace. rewrite rev_app_distr. apply leadingSpace_app.
  intros H. apply (f_equal (@rev rune)) in H. rewrite rev_involutive in H. contradiction.
Qed.

Lemma doubledSpace_app (a b : gostring) :
  solid a -> doubledSpace (a ++ b) = doubledSpace b.
Proof.
  intros [Hne Hsp]. induction a as [|x a IH]; [contradiction|].
  assert ((x =? 32) = false) as Hx by (apply Z.eqb_neq; intros ->; apply Hsp; now left).
  destruct a as [|y a].
  - cbn [app doubledSpace]. rewrite Hx. destruct b; reflexivity.
  - change (doubledSpace ((x :: y :: a) ++ b))
      with ((x =? 32) && (y =? 32) || doubledSpace ((y :: a) ++ b)).
    rewrite Hx. cbn [andb orb]. apply IH; [discriminate|].
    intros H. apply Hsp. now right.
Qed.

Lemma solid_tidy (w : gostring) :
  solid w -> leadingSpace w = false /\ trailingSpace w = false /\ doubledSpace w = false.
Proof.
  intros Hw. pose proof Hw as [Hne Hsp]. repeat split.
  - destruct w as [|x w]; [contradiction|]. apply Z.eqb_neq. intros ->. apply Hsp. now left.
  - unfold trailingSpace. destruct (rev w) as [|x t] eqn:E; [reflexivity|].
    apply Z.eqb_neq. intros ->. apply Hsp. apply (proj2 (in_rev w 32)). rewrite E. now left.
  - rewrite <- (app_nil_r w). now rewrite doubledSpace_app.
Qed.

(** Words without spaces, joined by single spaces, leave no space at
    either end and no two spaces in a row. *)
Lemma Join_tidy (ws : list gostring) :
  Forall solid ws ->
  let s := Join ws (lit " ") in
  leadingSpace s = false /\ trailingSpace s = false /\ doubledSpace s = false /\
  (ws <> [] -> s <> []).
Proof.
  cbv zeta. induction 1 as [|w ws Hw Hws IH].
  - repeat split. contradiction.
  - destruct (solid_tidy w Hw) as (Hl & Ht & Hd). pose proof Hw as [Hne _].
    destruct ws as [|w' ws].
    + cbn [Join]. repeat split; auto.
    + destruct IH as (IHl & IHt & IHd & IHn).
      assert (Join (w' :: ws) (lit " ") <> []) as Hj by (apply IHn; discriminate).
      change (Join (w :: w' :: ws) (lit " ")) with (w ++ 32 :: Join (w' :: ws) (lit " ")).
      repeat split.
      * now rewrite leadingSpace_app.
      * rewrite trailingSpace_app by discriminate.
        change (32 :: Join (w' :: ws) (lit " ")) with ([32] ++ Join (w' :: ws) (lit " ")).
        now rewrite trailingSpace_app.
      * rewrite doubledSpace_app by exact Hw.
        destruct (Join (w' :: ws) (lit " ")) as [|x t] eqn:E; [contradiction|].
        cbn [leadingSpace] in IHl.
        change (doubledSpace (32 :: x :: t))
          with ((32 =? 32) && (x =? 32) || doubledSpace (x :: t)).
        rewrite IHl, IHd. reflexivity.
      * destruct w; [contradiction | discriminate].
Qed.

Section Words.

Context {U : UnicodeLib} {W : DebugSink}.

Lemma Emits_solid (p : prettifier) (w : gostring) :
  KeepsWords U -> Inv InWord p -> ~ In 32 (input p) -> Emits p w -> solid w.
Proof.
  intros HU (H0 & H1 & H2) Hsp (rs & Hrs & Hw).
  apply slice_inv in Hrs. destruct Hrs as (_ & _ & _ & Hlen & Hin).
  assert (solid (string_of_runes rs)) as Hs.
  { apply solid_string_of_runes.
    - intros ->. unfold len in Hlen. simpl in Hlen. lia.
    - intros H. apply Hsp. now apply Hin. }
  destruct (HU _ Hs) as (Ht & Hl).
  destruct Hw as [[_ ->] | [_ [-> | ->]]]; assumption.
Qed.

Lemma fold_Title_solid (ws : list gostring) (acc : gostring) :
  KeepsWords U -> Forall solid ws -> ~ In 32 acc -> acc <> [] \/ ws <> [] ->
  solid (fold_left (fun fname w => fname ++ Title w) ws acc).
Proof.
  intros HU Hws. revert acc. induction Hws as [|w ws Hw Hws IH]; intros acc Hacc Hne.
  - cbn [fold_left]. split; [destruct Hne; [assumption | contradiction] | exact Hacc].
  - cbn [fold_left]. destruct (HU _ Hw) as ([Ht1 Ht2] & _). apply IH.
    + intros H. apply in_app_or in H. tauto.
    + left. intros H. apply app_eq_nil in H. tauto.
Qed.

(** Every step keeps the words solid when the input holds no space. *)
Lemma Step_solid (s : stateFunc) (s' : option stateFunc) (p p' : prettifier) :
  KeepsWords U -> Inv s p -> ~ In 32 (input p) -> Forall solid (words p) ->
  Step p s s' p' -> Forall solid (words p').
Proof.
  intros HU Hinv Hsp Hws Hstep.
  inversion Hstep; subst; cbn [words]; auto;
    match goal with E : Emits _ _ |- _ => apply (Emits_solid _ _ HU Hinv Hsp) in E end;
    try (apply Forall_app; split; [assumption | constructor; [assumption | constructor]]).
  constructor; [|constructor].
  apply fold_Title_solid; auto.
  - apply Forall_app; split; [assumption | constructor; [assumption | constructor]].
  - right. destruct (words p); discriminate.
Qed.

End Words.

Lemma Latin1_KeepsWords : KeepsWords Latin1Lib.
Proof.
  assert (forall r, Latin1.toLower r = 32 -> r = 32) as Hlow.
  { intros r. unfold Latin1.toLower, Latin1.isUpper, Latin1.between.
    destruct (_ || _) eqn:E; [|auto]. intros H.
    rewrite !orb_true_iff, !andb_true_iff, !Z.leb_le in E. lia. }
  assert (forall r, Latin1.toUpper r = 32 -> r = 32) as Hup.
  { intros r. unfold Latin1.toUpper, Latin1.between.
    destruct (_ || _) eqn:E; [|auto]. intros H.
    rewrite !orb_true_iff, !andb_true_iff, !Z.leb_le in E. lia. }
  assert (forall w b, (w <> [] -> Latin1.titleFrom b w <> []) /\
                      (In 32 (Latin1.titleFrom b w) -> In 32 w)) as Htitle.
  { induction w as [|r w IH]; intros b; [split; auto|].
    cbn [Latin1.titleFrom]. destruct (_ || _); (split; [discriminate|]).
    - intros [H | H]; [left; destruct b; auto | right; apply (IH true); exact H].
    - intros [H | H]; [left; auto | right; apply (IH false); exact H]. }
  intros w [Hne Hsp]. split; split.
  - apply Htitle. exact Hne.
  - intros H. apply Htitle in H. contradiction.
  - destruct w; [contradiction | discriminate].
  - intros H. apply in_map_iff in H. destruct H as (r & Hr & Hin).
    apply Hlow in Hr. subst r. contradiction.
Qed.

(** ** The multi-word-function fold *)

Lemma index_app_left (w t : list rune) (j : Z) :
  0 <= j -> j < len w -> exists r, index (w ++ t) j = Some r /\ In r w.
Proof.
  intros H0 H1. destruct (index_Some_iff w j) as (r & Hr & Hin); [lia|].
  exists r. split; [|exact Hin].
  unfold index in *. unfold len in *. rewrite length_app.
  replace ((0 <=? j) && (j <? Z.of_nat (length w + length t))) with true
    by (symmetry; apply andb_true_iff; split; [apply Z.leb_le | apply Z.ltb_lt]; lia).
  replace ((0 <=? j) && (j <? Z.of_nat (length w))) with true in Hr
    by (symmetry; apply andb_true_iff; split; [apply Z.leb_le | apply Z.ltb_lt]; lia).
  rewrite nth_error_app1 by lia. exact Hr.
Qed.

Lemma index_app_mid (w t : list rune) (x : rune) :
  index (w ++ x :: t) (len w) = Some x.
Proof.
  unfold index, len. rewrite length_app. cbn [length].
  replace ((0 <=? Z.of_nat (length w)) &&
           (Z.of_nat (length w) <? Z.of_nat (length w + S (length t)))) with true
    by (symmetry; apply andb_true_iff; split; [apply Z.leb_le | apply Z.ltb_lt]; lia).
  rewrite Nat2Z.id, nth_error_app2 by lia. now rewrite Nat.sub_diag.
Qed.

Section Fold.

Context {U : UnicodeLib} {W : DebugSink}.









End Fold.

(** ** What [emit] does to a word *)

Lemma firstn_snoc {A} (l : list A) (n : nat) (x : A) :
  nth_error l n = Some x -> firstn (S n) l = firstn n l ++ [x].
Proof.
  revert l. induction n as [|n IH]; intros [|y l] H; try discriminate.
  - injection H as ->. reflexivity.
  - cbn [firstn app]. f_equal. apply IH. exact H.
Qed.

(** A slice that is not empty is the slice without its last rune,
    followed by the rune at its last offset. *)
Lemma slice_snoc (s rs : list rune) (lo hi : Z) :
  slice s lo hi = Some rs -> lo < hi ->
  exists rs' r,
    slice s lo (hi - 1) = Some rs' /\ index s (hi - 1) = Some r /\ rs = rs' ++ [r].
Proof.
  intros Hs Hlt. pose proof (slice_inv _ _ _ _ Hs) as (H0 & H1 & H2 & _).
  rewrite slice_Some in Hs by lia. injection Hs as <-.
  destruct (index_Some_iff s (hi - 1)) as (r & Hr & _); [lia|].
  exists (firstn (Z.to_nat (hi - 1 - lo)) (skipn (Z.to_nat lo) s)), r.
  split; [apply slice_Some; lia|]. split; [exact Hr|].
  replace (Z.to_nat (hi - lo)) with (S (Z.to_nat (hi - 1 - lo))) by lia.
  apply firstn_snoc. rewrite nth_error_skipn.
  replace (Z.to_nat lo + Z.to_nat (hi - 1 - lo))%nat with (Z.to_nat (hi - 1)) by lia.
  unfold index in Hr. destruct ((0 <=? hi - 1) && (hi - 1 <? len s)); [exact Hr | discriminate].
Qed.

Lemma string_eqb_eq (a b : gostring) : string_eqb a b = true -> a = b.
Proof.
  revert b. induction a as [|x a IH]; intros [|y b] H; try discriminate; [reflexivity|].
  cbn [string_eqb] in H. apply andb_true_iff in H. destruct H as [H1 H2].
  apply Z.eqb_eq in H1. subst y. f_equal. now apply IH.
Qed.

Section Emission.

Context {U : UnicodeLib} {W : DebugSink}.


(** A word that is not the first and shorter than three bytes is
    appended lower-cased, unless it is "OK", which is appended as it
    is. *)
Lemma emit_short_word (p : prettifier) (rs : list rune) :
  words p <> [] ->
  slice (input p) (start p) (pos p) = Some rs ->
  len_string (string_of_runes rs) < 3 ->
  exists d,
    emit p = Ok (tt, mkPrettifier d (input p) (pos p) (pos p)
                       (words p ++ [if string_eqb (string_of_runes rs) (lit "OK")
                                    then lit "OK" else Lower (string_of_runes rs)])
                       (inSubTest p) (seenUnderscore p)).
Proof.
  intros Hw Hs Hlen.
  unfold emit, bind, get, lift, ret, log, modify, skip. rewrite Hs.
  replace (len (words p) =? 0) with false
    by (symmetry; apply Z.eqb_neq; destruct (words p); [contradiction | unfold len; cbn [length]; lia]).
  replace (len_string (string_of_runes rs) <? 3) with true
    by (symmetry; apply Z.ltb_lt; lia).
  destruct (string_eqb (string_of_runes rs) (lit "OK")) eqn:E.
  - apply string_eqb_eq in E. rewrite E. eexists. reflexivity.
  - eexists. reflexivity.
Qed.

End Emission.


(** ** The properties of the specification *)

(** C1: the six scenarios of the specification.  With the Latin-1 tables,
    whatever the debug switch and the stream, [Prettify] returns "Foo" for
    "TestFoo", "Foo has well-formed output" for
    "TestFoo/has_well-formed_output", "Handle input closes input after
    reading" for "TestHandleInputClosesInputAfterReading", "HandleInput
    closes input after reading" for
    "TestHandleInput_ClosesInputAfterReading", "Parse JSON" for
    "TestParseJSON", and the empty string for the empty string. *)
Theorem Prettify_scenarios (W : DebugSink) (getenv : gostring) (DebugWriter : Sink) :
  let P := fun s => returned (Prettify (U := Latin1Lib) getenv DebugWriter (lit s)) in
  P "TestFoo"%string = Ok (lit "Foo") /\
  P "TestFoo/has_well-formed_output"%string = Ok (lit "Foo has well-formed output") /\
  P "TestHandleInputClosesInputAfterReading"%string =
    Ok (lit "Handle input closes input after reading") /\
  P "TestHandleInput_ClosesInputAfterReading"%string =
    Ok (lit "HandleInput closes input after reading") /\
  P "TestParseJSON"%string = Ok (lit "Parse JSON") /\
  P ""%string = Ok (lit "").
Proof.
  cbv zeta. unfold Prettify.
  refine (conj _ (conj _ (conj _ (conj _ (conj _ _)))));
    (etransitivity; [apply PrettifyFuel_erased | vm_compute; reflexivity]).
Qed.




(** C3: [Prettify] is total.  For every input (any sequence of code
    points, with or without the prefix, empty or not), every Unicode
    library, every debug switch and stream, the call returns a string;
    and whatever fuel the state loop is given it never panics, so every
    index and slice expression of [prev], [next], [peek], [isInitialism],
    [emit] and [logState] is evaluated within the bounds of the input. *)
Theorem Prettify_total (U : UnicodeLib) (W : DebugSink)
    (getenv : gostring) (DebugWriter : Sink) (i : gostring) :
  (exists s p, Prettify getenv DebugWriter i = Ok (s, p)) /\
  (forall fuel, PrettifyFuel fuel getenv DebugWriter i <> Panic).
Proof.
  split.
  - destruct (Prettify_invariant (fun _ _ => True) getenv DebugWriter i 0) as (p & d & H & _); auto.
    rewrite Nat.add_0_r in H. eexists; eexists; exact H.
  - intros fuel. destruct (Prettify_started getenv DebugWriter i) as (p0 & Hp0).
    rewrite (PrettifyFuel_eq _ _ _ _ _ Hp0).
    destruct (started_Inv _ _ _ _ Hp0) as (Hinv & _).
    pose proof (run_no_panic fuel _ _ Hinv) as Hrun.
    destruct (run fuel (Some BetweenWords) p0) as [[[] p]| |]; congruence.
Qed.

(** C4, as the code has it: when the input holds no space and case
    mapping neither empties a word nor puts a space into one, the string
    [Prettify] returns has no leading space, no trailing space and no two
    spaces in a row. *)
Theorem Prettify_no_stray_spaces (U : UnicodeLib) (W : DebugSink)
    (getenv : gostring) (DebugWriter : Sink) (i : gostring) :
  KeepsWords U -> ~ In 32 i ->
  exists s p,
    Prettify getenv DebugWriter i = Ok (s, p) /\
    leadingSpace s = false /\ trailingSpace s = false /\ doubledSpace s = false.
Proof.
  intros HU Hsp.
  assert (~ In 32 (TrimPrefix i (lit "Test"))) as Hsp'.
  { unfold TrimPrefix. destruct (HasPrefix i (lit "Test")); [|exact Hsp].
    intros H. apply Hsp. eapply In_skipn; eauto. }
  pose (K := fun (_ : option stateFunc) (p : prettifier) =>
               ~ In 32 (input p) /\ Forall solid (words p)).
  destruct (Prettify_invariant K getenv DebugWriter i 0) as (p & d & H & _ & _ & Hws).
  - intros s p s' p' Hinv (Hin & Hws) Hstep. split.
    + rewrite (Step_input _ _ _ _ Hstep). exact Hin.
    + eapply Step_solid; eauto.
  - intros p0 (_ & Hin & _ & _ & Hw & _). split; [rewrite Hin; exact Hsp'|].
    rewrite Hw. constructor.
  - rewrite Nat.add_0_r in H. fold (Prettify getenv DebugWriter i) in H.
    eexists; eexists. split; [exact H|].
    destruct (Join_tidy _ Hws) as (Hl & Ht & Hd & _). auto.
Qed.

(** The hypotheses hold of the Latin-1 tables and of
    "TestFoo/has_well-formed_output". *)
Lemma Prettify_no_stray_spaces_witness :
  KeepsWords Latin1Lib /\ ~ In 32 (lit "TestFoo/has_well-formed_output") /\
  exists s p,
    Prettify (U := Latin1Lib) (W := NullSink) [] tt (lit "TestFoo/has_well-formed_output") =
      Ok (s, p) /\
    leadingSpace s = false /\ trailingSpace s = false /\ doubledSpace s = false.
Proof.
  assert (~ In 32 (lit "TestFoo/has_well-formed_output")) as H.
  { intros H. apply (In_nth_error) in H. destruct H as (n & Hn).
    assert (forallb (fun r => negb (r =? 32)) (lit "TestFoo/has_well-formed_output") = true) as Hall
      by (vm_compute; reflexivity).
    rewrite forallb_forall in Hall. apply nth_error_In in Hn. apply Hall in Hn. discriminate Hn. }
  split; [exact Latin1_KeepsWords|]. split; [exact H|].
  exact (Prettify_no_stray_spaces Latin1Lib NullSink [] tt _ Latin1_KeepsWords H).
Defined.

(** The claim C4 fails as stated: a space in the input is an ordinary
    rune of a word.  On " a" the call returns " A", which starts with a
    space; on "a  b" it returns "A  B", which has two spaces in a row. *)
Lemma space_in_input_is_kept :
  exists p q,
    Prettify (U := Latin1Lib) (W := NullSink) [] tt (lit " a") = Ok (lit " A", p) /\
    leadingSpace (lit " A") = true /\
    Prettify (U := Latin1Lib) (W := NullSink) [] tt (lit "a  b") = Ok (lit "A  B", q) /\
    doubledSpace (lit "A  B") = true.
Proof.
  eexists; eexists. split; [vm_compute; reflexivity|]. split; [reflexivity|].
  split; [vm_compute; reflexivity | reflexivity].
Qed.




(** C6 at its failing input.  "TestFoo" followed by U+00C9 and "A": the
    last word has two characters and three bytes, so [len(word) < 3] does
    not hold, [isInitialism] accepts it, and it is returned in upper
    case, where lower-casing it gives U+00E9 and "a". *)
Lemma two_character_word_kept_upper :
  let i := lit "TestFoo" ++ [201; 65] in
  returned (Prettify (U := Latin1Lib) (W := NullSink) [] tt i) =
    Ok (lit "Foo " ++ [201; 65]) /\
  len [201; 65] = 2 /\ len_string (string_of_runes [201; 65]) = 3 /\
  string_eqb (string_of_runes [201; 65]) (lit "OK") = false /\
  Lower (UnicodeLib := Latin1Lib) (string_of_runes [201; 65]) = [233; 97].
Proof.
  cbv zeta. refine (conj _ (conj _ (conj _ (conj _ _)))); vm_compute; reflexivity.
Qed.




(** C8, as the code has it: at every configuration of every call,
    [0 <= start <= pos <= len(input) + 1], the input is the stripped
    argument, and [pos <= len(input)] as long as a state function is
    still to be called; [pos] exceeds the length (by one) only in the
    final configuration, after [betweenWords] has walked over the end of
    the input. *)
Theorem cursor_bounds (U : UnicodeLib) (W : DebugSink)
    (getenv : gostring) (DebugWriter : Sink) (i : gostring) :
  Forall (fun c =>
            input (snd c) = TrimPrefix i (lit "Test") /\
            0 <= start (snd c) /\ start (snd c) <= pos (snd c) /\
            pos (snd c) <= len (input (snd c)) + 1 /\
            (fst c <> None -> pos (snd c) <= len (input (snd c))))
         (scan getenv DebugWriter i).
Proof.
  destruct (Prettify_started getenv DebugWriter i) as (p0 & Hp0).
  destruct (started_Inv _ _ _ _ Hp0) as (Hinv & _).
  rewrite (scan_eq _ _ _ _ Hp0).
  pose (K := fun (s : option stateFunc) (p : prettifier) =>
               input p = input p0 /\
               match s with
               | Some s => Inv s p
               | None => 0 <= start p /\ start p <= pos p /\ pos p <= len (input p) + 1
               end).
  assert (Forall (fun c => K (fst c) (snd c)) (configs (enough i) (Some BetweenWords) p0)) as H.
  { apply configs_invariant; [|exact Hinv|split; [reflexivity | exact Hinv]].
    intros s p s' p' Hp (Hin & _) Hstep. split.
    - rewrite (Step_input _ _ _ _ Hstep). exact Hin.
    - destruct s' as [s'|]; [eapply Step_Inv; eauto | eapply Step_final; eauto]. }
  eapply Forall_impl; [|exact H].
  intros [s p] (Hin & Hs). cbn [fst snd] in *.
  split; [rewrite Hin; apply Hp0|].
  destruct s as [s|].
  - destruct Hs as (H0 & H1 & H2). destruct s; repeat split; try lia; auto.
  - destruct Hs as (H0 & H1 & H2). repeat split; try lia. congruence.
Qed.

(** The claim C8 fails as stated: on the empty input the scan ends with
    [pos = 1] over an input of length 0. *)
Lemma cursor_overshoots_at_the_end :
  exists p,
    In (None, p) (scan (U := Latin1Lib) (W := NullSink) [] tt (lit "")) /\
    len (input p) = 0 /\ pos p = 1 /\ ~ (pos p <= len (input p)).
Proof.
  eexists. split; [right; left; reflexivity|].
  vm_compute. repeat split; congruence.
Qed.

(** C9: the state loop of [Prettify] terminates.  For every input the
    loop reaches the nil state within [enough] passes through the loop
    bodies, that is twice the number of runes of the stripped input plus
    two: the call does not run out of fuel, more fuel than that changes
    nothing, and the configurations of the scan end with the nil state.
    The reason is the cursor: no pass moves it back, and every pass that
    returns a state leaves fewer passes to come ([remaining] counts two
    per rune not yet walked over and one for the word being scanned). *)
Theorem Prettify_terminates (U : UnicodeLib) (W : DebugSink)
    (getenv : gostring) (DebugWriter : Sink) (i : gostring) (k : nat) :
  Prettify getenv DebugWriter i <> OutOfFuel /\
  PrettifyFuel (enough i + k) getenv DebugWriter i = Prettify getenv DebugWriter i /\
  (exists pre p, scan getenv DebugWriter i = pre ++ [(None, p)]) /\
  (length (scan getenv DebugWriter i) <= enough i + 1)%nat /\
  (forall s p s' p',
      Inv s p -> call s p = Ok (Some s', p') ->
      Inv s' p' /\ (remaining s' p' < remaining s p)%nat /\ pos p <= pos p').
Proof.
  destruct (Prettify_started getenv DebugWriter i) as (p0 & Hp0).
  destruct (started_Inv _ _ _ _ Hp0) as (Hinv & Hfuel).
  destruct (configs_end _ _ _ Hinv Hfuel) as (pre & p & Hc & Hr).
  unfold Prettify. rewrite !(PrettifyFuel_eq _ _ _ _ _ Hp0), (scan_eq _ _ _ _ Hp0).
  rewrite (run_more_fuel _ k _ _ _ Hr), Hr.
  split; [discriminate|]. split; [reflexivity|]. split; [exists pre, p; exact Hc|].
  split; [|intros s q s' q'; apply pass_decreases].
  clear. generalize (enough i) (Some BetweenWords) p0.
  induction n as [|n IH]; intros s p.
  - destruct s; simpl; lia.
  - cbn [configs]. destruct s as [s|]; [|simpl; lia].
    destruct (call s p) as [[s' p']| |]; [|simpl; lia|simpl; lia].
    specialize (IH s' p'). simpl in *. lia.
Qed.

(** C10: the string [Prettify] returns depends on the input alone.  For
    every input (and every fuel given to the state loop), two calls
    return the same string whatever the value of GOTESTDOX_DEBUG and
    whatever stream [DebugWriter] holds in each, streams of different
    kinds included: what is written to the stream never reaches the
    result. *)
Theorem Prettify_ignores_debug (U : UnicodeLib) (W1 W2 : DebugSink)
    (getenv1 getenv2 : gostring)
    (DebugWriter1 : Sink (DebugSink := W1)) (DebugWriter2 : Sink (DebugSink := W2))
    (i : gostring) :
  returned (Prettify getenv1 DebugWriter1 i) = returned (Prettify getenv2 DebugWriter2 i) /\
  forall fuel,
    returned (PrettifyFuel fuel getenv1 DebugWriter1 i) =
    returned (PrettifyFuel fuel getenv2 DebugWriter2 i).
Proof.
  assert (forall fuel,
    returned (PrettifyFuel fuel getenv1 DebugWriter1 i) =
    returned (PrettifyFuel fuel getenv2 DebugWriter2 i)) as H.
  { intros fuel. etransitivity; [apply PrettifyFuel_erased|].
    symmetry. apply PrettifyFuel_erased. }
  split; [apply H | exact H].
Qed.

(** ** The boundary rules of [inWord] *)

Section Rules.

Context {U : UnicodeLib} {W : DebugSink}.

Lemma prev_index (p p' : prettifier) (a : rune) :
  prev p = Ok (a, p') -> index (input p) (pos p - 1) = Some a.
Proof.
  unfold prev, bind, get, lift. destruct (index (input p) (pos p - 1)); [|discriminate].
  intros H. injection H as -> _. reflexivity.
Qed.

Lemma prev_set_debug (p : prettifier) (d : Writer) (a : rune) :
  prev p = Ok (a, p) -> prev (set_debug p d) = Ok (a, set_debug p d).
Proof.
  intros H. apply prev_index in H. unfold prev, bind, get, lift.
  cbn [set_debug input pos]. now rewrite H.
Qed.

Lemma next_set_debug (p : prettifier) (d : Writer) (b : rune) :
  next p = Ok (b, p) -> next (set_debug p d) = Ok (b, set_debug p d).
Proof.
  unfold next, bind, get, lift. cbn [set_debug input pos].
  destruct (len (input p) <=? pos p + 1).
  - destruct (index (input p) (pos p)); [|discriminate]. intros H. injection H as ->. reflexivity.
  - destruct (index (input p) (pos p + 1)); [|discriminate]. intros H. injection H as ->. reflexivity.
Qed.

Lemma prevUpperAnd_eq (f : rune -> bool) (p : prettifier) (a b : rune) :
  prev p = Ok (a, p) -> next p = Ok (b, p) ->
  prevUpperAnd f p = Ok (IsUpper a && f b, p).
Proof.
  intros Ha Hb. unfold prevUpperAnd. rewrite (bind_Ok _ _ _ _ _ Ha).
  destruct (IsUpper a); [|reflexivity].
  rewrite (bind_Ok _ _ _ _ _ Hb). reflexivity.
Qed.

Lemma inInitialism_eq (p : prettifier) (a b : rune) :
  prev p = Ok (a, p) -> next p = Ok (b, p) ->
  inInitialism p = Ok (initialismRun a b, p).
Proof.
  intros Ha Hb. unfold inInitialism, initialismRun.
  pose proof (prevUpperAnd_eq IsUpper p a b Ha Hb) as E1.
  pose proof (prevUpperAnd_eq IsDigit p a b Ha Hb) as E2.
  pose proof (prevUpperAnd_eq (fun r => r =? 115) p a b Ha Hb) as E3.
  cbv beta in E3.
  destruct (IsUpper a), (IsUpper b), (IsDigit b), (b =? 115); cbn [andb orb] in *;
    rewrite (bind_Ok _ _ _ _ _ E1); try reflexivity;
    rewrite (bind_Ok _ _ _ _ _ E2); try reflexivity;
    rewrite (bind_Ok _ _ _ _ _ E3); reflexivity.
Qed.

(** The rule of [inWord] for a rune that is neither the end of the input
    nor a separator: the pass walks over it when [joins] holds, and
    otherwise emits the word scanned so far and leaves the rune to
    [betweenWords]. *)
Lemma inWord_joins (p : prettifier) (a r b : rune) :
  Inv InWord p ->
  index (input p) (pos p) = Some r -> r <> eof -> separator r = false ->
  prev p = Ok (a, p) -> next p = Ok (b, p) ->
  exists d w,
    Emits p w /\
    inWord p =
      Ok (if joins a r b
          then (Some InWord,
                mkPrettifier d (input p) (start p) (pos p + 1) (words p)
                  (inSubTest p) (seenUnderscore p))
          else (Some BetweenWords,
                mkPrettifier d (input p) (pos p) (pos p) (words p ++ [w])
                  (inSubTest p) (seenUnderscore p))).
Proof.
  intros (H0 & H1 & H2) Hr N0 Hsep Ha Hb.
  apply orb_false_iff in Hsep. destruct Hsep as [N95 N47].
  pose proof (index_bounds _ _ _ Hr) as [Hpos _].
  destruct (logState_ok "inWord" p) as (d & Hlog); [lia | lia | lia |].
  unfold inWord. rewrite (bind_Ok _ _ _ _ _ Hlog).
  apply (prev_set_debug p d) in Ha. apply (next_set_debug p d) in Hb.
  pose proof (inInitialism_eq _ _ _ Ha Hb) as Hinit.
  destruct p as [d0 inp st ps ws sub seen]. unfold set_debug in *.
  cbn [input start pos words inSubTest seenUnderscore] in *.
  set (q := mkPrettifier d inp st ps ws sub seen) in *.
  assert (peek q = Ok (r, q)) as Hpeek.
  { unfold peek, bind, get, lift, ret. cbn [q input pos].
    replace (len inp <=? ps) with false by (symmetry; apply Z.leb_gt; lia).
    now rewrite Hr. }
  rewrite (bind_Ok _ _ _ _ _ Hpeek).
  replace (r =? eof) with false by (symmetry; apply Z.eqb_neq; exact N0).
  rewrite N95, N47.
  destruct (emit_ok q) as (de & w & Hemit & Hw);
    [cbn [q input start pos]; lia | cbn [q input start pos]; lia | cbn [q input start pos]; lia |].
  cbn [q input start pos words inSubTest seenUnderscore] in Hemit.
  assert (bind walk (fun _ => ret (Some InWord)) q =
            Ok (Some InWord, mkPrettifier d inp st (ps + 1) ws sub seen)) as Hwalk.
  { unfold walk, bind. rewrite Hpeek. reflexivity. }
  assert (bind emit (fun _ => ret (Some BetweenWords)) q =
            Ok (Some BetweenWords, mkPrettifier de inp ps ps (ws ++ [w]) sub seen)) as Hbreak
    by (rewrite (bind_Ok _ _ _ _ _ Hemit); reflexivity).
  unfold joins.
  destruct (IsDigit r).
  - rewrite (bind_Ok _ _ _ _ _ Ha).
    destruct (IsDigit a); cbn [orb]; [rewrite Hwalk; exists d, w; split; [exact Hw | reflexivity]|].
    rewrite (bind_Ok _ _ _ _ _ Ha).
    destruct (a =? 45); cbn [orb]; [rewrite Hwalk; exists d, w; split; [exact Hw | reflexivity]|].
    rewrite (bind_Ok _ _ _ _ _ Ha).
    destruct (a =? 61); cbn [orb]; [rewrite Hwalk; exists d, w; split; [exact Hw | reflexivity]|].
    rewrite (bind_Ok _ _ _ _ _ Hinit).
    destruct (initialismRun a b).
    + rewrite Hwalk. exists d, w. split; [exact Hw | reflexivity].
    + rewrite Hbreak. exists de, w. split; [exact Hw | reflexivity].
  - destruct (IsUpper r).
    + rewrite (bind_Ok _ _ _ _ _ Hinit).
      destruct (initialismRun a b).
      * rewrite Hwalk. exists d, w. split; [exact Hw | reflexivity].
      * rewrite Hbreak. exists de, w. split; [exact Hw | reflexivity].
    + rewrite Hwalk. exists d, w. split; [exact Hw | reflexivity].
Qed.

End Rules.

(** ** More on slices *)

Lemma index_cons (x : rune) (l : list rune) (j : Z) :
  1 <= j -> index (x :: l) j = index l (j - 1).
Proof.
  intros Hj. unfold index, len. cbn [length].
  replace (Z.to_nat j) with (S (Z.to_nat (j - 1))) by lia. cbn [nth_error].
  destruct (j <? Z.of_nat (S (length l))) eqn:E1, (j - 1 <? Z.of_nat (length l)) eqn:E2;
    try apply Z.ltb_lt in E1; try apply Z.ltb_ge in E1;
    try apply Z.ltb_lt in E2; try apply Z.ltb_ge in E2; try lia;
    replace (0 <=? j) with true by (symmetry; apply Z.leb_le; lia);
    replace (0 <=? j - 1) with true by (symmetry; apply Z.leb_le; lia); reflexivity.
Qed.

Lemma slice_full (s : list rune) : slice s 0 (len s) = Some s.
Proof.
  rewrite slice_Some by (pose proof (len_nonneg s); lia).
  unfold len. rewrite Z.sub_0_r, Nat2Z.id. cbn [Z.to_nat skipn]. now rewrite firstn_all.
Qed.

(** A slice grows by the rune at its upper bound. *)
Lemma slice_grow (s rs : list rune) (lo hi : Z) (r : rune) :
  slice s lo hi = Some rs -> index s hi = Some r ->
  slice s lo (hi + 1) = Some (rs ++ [r]).
Proof.
  intros Hs Hr. pose proof (slice_inv _ _ _ _ Hs) as (H0 & H1 & _).
  pose proof (index_bounds _ _ _ Hr) as [H2 _].
  destruct (slice_snoc s (firstn (Z.to_nat (hi + 1 - lo)) (skipn (Z.to_nat lo) s)) lo (hi + 1))
    as (rs' & r' & Hs' & Hr' & Heq); [apply slice_Some; lia | lia |].
  replace (hi + 1 - 1) with hi in * by lia.
  rewrite Hs in Hs'. injection Hs' as <-. rewrite Hr in Hr'. injection Hr' as <-.
  rewrite slice_Some by lia. now rewrite Heq.
Qed.


(** ** Whole-input properties of the scan *)

Section Whole.

Context {U : UnicodeLib} {W : DebugSink}.

(** What [Prettify] returns, from a property of the final word list that
    every step keeps. *)
Lemma Prettify_words (K : option stateFunc -> prettifier -> Prop)
    (getenv : gostring) (DebugWriter : Sink) (i : gostring) :
  (forall s p s' p', Inv s p -> K (Some s) p -> Step p s s' p' -> K s' p') ->
  (forall p0, started getenv DebugWriter i p0 -> K (Some BetweenWords) p0) ->
  exists p,
    returned (Prettify getenv DebugWriter i) = Ok (Join (words p) (lit " ")) /\
    input p = TrimPrefix i (lit "Test") /\ K None p.
Proof.
  intros HK H0.
  destruct (Prettify_invariant K getenv DebugWriter i 0 HK H0) as (p & d & H & Hin & Hp).
  rewrite Nat.add_0_r in H. fold (Prettify getenv DebugWriter i) in H.
  exists p. rewrite H. repeat split; auto.
Qed.

Lemma forallb_In {A} (f : A -> bool) (l : list A) (x : A) :
  forallb f l = true -> In x l -> f x = true.
Proof. intros H. rewrite forallb_forall in H. apply H. Qed.

Lemma separator_true (r : rune) : separator r = true -> r = 95 \/ r = 47.
Proof.
  unfold separator. rewrite orb_true_iff, !Z.eqb_eq. tauto.
Qed.

Lemma separator_false (r : rune) : separator r = false <-> r <> 95 /\ r <> 47.
Proof.
  unfold separator. rewrite orb_false_iff, !Z.eqb_neq. tauto.
Qed.



End Whole.

Lemma slice_nil (s : list rune) (lo : Z) :
  0 <= lo -> lo <= len s -> slice s lo lo = Some [].
Proof.
  intros H0 H1. rewrite slice_Some by lia. now rewrite Z.sub_diag.
Qed.

Lemma Latin1_isUpper_iff (r : rune) :
  Latin1.isUpper r = true <-> (65 <= r <= 90 \/ 192 <= r <= 214 \/ 216 <= r <= 222).
Proof.
  unfold Latin1.isUpper, Latin1.between.
  rewrite !orb_true_iff, !andb_true_iff, !Z.leb_le. tauto.
Qed.




Section RuleFacts.

Context {U : UnicodeLib} {W : DebugSink}.

Lemma prev_of_index (p : prettifier) (a : rune) :
  index (input p) (pos p - 1) = Some a -> prev p = Ok (a, p).
Proof. intros H. unfold prev, bind, get, lift. now rewrite H. Qed.

Lemma next_of_index (p : prettifier) (b : rune) :
  index (input p) (if len (input p) <=? pos p + 1 then pos p else pos p + 1) = Some b ->
  next p = Ok (b, p).
Proof.
  intros H. unfold next, bind, get, lift.
  destruct (len (input p) <=? pos p + 1); now rewrite H.
Qed.

End RuleFacts.

Lemma TrimPrefix_Test (s : gostring) : TrimPrefix (lit "Test" ++ s) (lit "Test") = s.
Proof. reflexivity. Qed.

Lemma TrimPrefix_absent (s t : gostring) : HasPrefix s t = false -> TrimPrefix s t = s.
Proof. intros H. unfold TrimPrefix. now rewrite H. Qed.

(** Without a stream the call depends on its argument through the
    stripped identifier only. *)
Lemma PrettifyFuel_stripped {U : UnicodeLib} (fuel : nat) (i j : gostring) :
  TrimPrefix i (lit "Test") = TrimPrefix j (lit "Test") ->
  returned (PrettifyFuel (W := NullSink) fuel [] tt i) =
  returned (PrettifyFuel (W := NullSink) fuel [] tt j).
Proof.
  intros H. unfold PrettifyFuel, newPrettifier. cbn [string_eqb negb].
  unfold bind at 1 3, log at 1 3, modify.
  cbn [set_debug debug input start pos words inSubTest seenUnderscore Fprintln].
  rewrite H. reflexivity.
Qed.

(** ** What reaches the stream *)

Section Stream.

Context {U : UnicodeLib} {W : DebugSink}.

Variable P : Writer -> Prop.
Hypothesis P_Fprintln : forall w l, P w -> P (Fprintln w l).

Lemma Keeps_ret {A} (a : A) : Keeps P (ret a).
Proof. intros p b p' Hp H. injection H as _ <-. exact Hp. Qed.

Lemma Keeps_get : Keeps P get.
Proof. intros p b p' Hp H. injection H as _ <-. exact Hp. Qed.

Lemma Keeps_lift {A} (o : option A) : Keeps P (lift o).
Proof.
  intros p b p' Hp H. unfold lift in H. destruct o; [|discriminate].
  injection H as _ <-. exact Hp.
Qed.

Lemma Keeps_bind {A B} (m : M A) (f : A -> M B) :
  Keeps P m -> (forall a, Keeps P (f a)) -> Keeps P (bind m f).
Proof.
  intros Hm Hf p b p' Hp H. unfold bind in H.
  destruct (m p) as [[a q]| |] eqn:E; try discriminate.
  eapply Hf; [|exact H]. eapply Hm; eauto.
Qed.

Lemma Keeps_if {A} (b : bool) (m m' : M A) : Keeps P m -> Keeps P m' -> Keeps P (if b then m else m').
Proof. destruct b; auto. Qed.

Lemma Keeps_modify (f : prettifier -> prettifier) :
  (forall p, P (debug p) -> P (debug (f p))) -> Keeps P (modify f).
Proof. intros Hf p b p' Hp H. injection H as _ <-. auto. Qed.

Lemma Keeps_log (l : logLine) : Keeps P (log l).
Proof. apply Keeps_modify. intros p Hp. cbn [set_debug debug]. auto. Qed.

Lemma Keeps_skip : Keeps P skip.
Proof. apply Keeps_modify. auto. Qed.

Lemma Keeps_prev : Keeps P prev.
Proof. apply Keeps_bind; [apply Keeps_get | intros p; apply Keeps_lift]. Qed.

Lemma Keeps_peek : Keeps P peek.
Proof.
  apply Keeps_bind; [apply Keeps_get|]. intros p.
  apply Keeps_if; [apply Keeps_ret | apply Keeps_lift].
Qed.

Lemma Keeps_walk : Keeps P walk.
Proof.
  apply Keeps_bind; [apply Keeps_peek|]. intros r.
  apply Keeps_bind; [apply Keeps_modify; auto | intros _; apply Keeps_ret].
Qed.

Lemma Keeps_next : Keeps P next.
Proof.
  apply Keeps_bind; [apply Keeps_get|]. intros p. apply Keeps_if; apply Keeps_lift.
Qed.

Lemma Keeps_isInitialism : Keeps P isInitialism.
Proof.
  apply Keeps_bind; [apply Keeps_get|]. intros p.
  apply Keeps_bind; [apply Keeps_lift|]. intros rs.
  apply Keeps_if; [apply Keeps_ret|].
  apply Keeps_bind; [apply Keeps_lift | intros r; apply Keeps_ret].
Qed.

Lemma Keeps_prevUpperAnd (f : rune -> bool) : Keeps P (prevUpperAnd f).
Proof.
  apply Keeps_bind; [apply Keeps_prev|]. intros a.
  apply Keeps_if; [|apply Keeps_ret].
  apply Keeps_bind; [apply Keeps_next | intros b; apply Keeps_ret].
Qed.

Lemma Keeps_inInitialism : Keeps P inInitialism.
Proof.
  apply Keeps_bind; [apply Keeps_prevUpperAnd|]. intros c1.
  apply Keeps_if; [apply Keeps_ret|].
  apply Keeps_bind; [apply Keeps_prevUpperAnd|]. intros c2.
  apply Keeps_if; [apply Keeps_ret|].
  apply Keeps_bind; [apply Keeps_prevUpperAnd|]. intros c3.
  apply Keeps_if; apply Keeps_ret.
Qed.

Lemma Keeps_emit : Keeps P emit.
Proof.
  apply Keeps_bind; [apply Keeps_get|]. intros p.
  apply Keeps_bind; [apply Keeps_lift|]. intros w.
  apply Keeps_bind.
  - apply Keeps_if; [apply Keeps_ret|].
    apply Keeps_if; [apply Keeps_if; apply Keeps_ret|].
    apply Keeps_bind; [apply Keeps_isInitialism|]. intros b. apply Keeps_if; apply Keeps_ret.
  - intros word. apply Keeps_bind; [apply Keeps_log|]. intros _.
    apply Keeps_bind; [apply Keeps_modify; auto | intros _; apply Keeps_skip].
Qed.

Lemma Keeps_multiWordFunction : Keeps P multiWordFunction.
Proof.
  apply Keeps_bind; [apply Keeps_get|]. intros p.
  apply Keeps_bind; [apply Keeps_log|]. intros _.
  apply Keeps_bind; [apply Keeps_modify; auto | intros _; apply Keeps_modify; auto].
Qed.

Lemma Keeps_logState (n : string) : Keeps P (logState n).
Proof.
  apply Keeps_bind; [apply Keeps_get|]. intros p.
  apply Keeps_bind.
  - apply Keeps_if; [|apply Keeps_ret].
    apply Keeps_bind; [apply Keeps_lift | intros r; apply Keeps_ret].
  - intros nx. apply Keeps_bind; [apply Keeps_lift | intros w; apply Keeps_log].
Qed.

Lemma Keeps_betweenWords : Keeps P betweenWords.
Proof.
  apply Keeps_bind; [apply Keeps_logState|]. intros _.
  apply Keeps_bind; [apply Keeps_walk|]. intros r.
  apply Keeps_if; [apply Keeps_ret|].
  apply Keeps_if; [|apply Keeps_ret].
  apply Keeps_bind; [apply Keeps_skip | intros _; apply Keeps_ret].
Qed.

Lemma Keeps_inWord : Keeps P inWord.
Proof.
  assert (Keeps P (bind walk (fun _ => ret (Some InWord)))) as Hwalk
    by (apply Keeps_bind; [apply Keeps_walk | intros _; apply Keeps_ret]).
  assert (forall s : option stateFunc, Keeps P (bind emit (fun _ => ret s))) as Hemit
    by (intros s; apply Keeps_bind; [apply Keeps_emit | intros _; apply Keeps_ret]).
  apply Keeps_bind; [apply Keeps_logState|]. intros _.
  apply Keeps_bind; [apply Keeps_peek|]. intros r.
  apply Keeps_if; [apply Hemit|].
  apply Keeps_if.
  { apply Keeps_bind; [apply Keeps_emit|]. intros _.
    apply Keeps_bind; [apply Keeps_get|]. intros p.
    apply Keeps_bind; [|intros _; apply Keeps_ret].
    apply Keeps_if; [apply Keeps_multiWordFunction | apply Keeps_ret]. }
  apply Keeps_if.
  { apply Keeps_bind; [apply Keeps_emit|]. intros _.
    apply Keeps_bind; [apply Keeps_modify; auto | intros _; apply Keeps_ret]. }
  apply Keeps_if.
  { apply Keeps_bind; [apply Keeps_prev|]. intros a. apply Keeps_if; [apply Hwalk|].
    apply Keeps_bind; [apply Keeps_prev|]. intros a1. apply Keeps_if; [apply Hwalk|].
    apply Keeps_bind; [apply Keeps_prev|]. intros a2. apply Keeps_if; [apply Hwalk|].
    apply Keeps_bind; [apply Keeps_inInitialism|]. intros b.
    apply Keeps_if; [apply Hwalk | apply Hemit]. }
  apply Keeps_if; [|apply Hwalk].
  apply Keeps_bind; [apply Keeps_inInitialism|]. intros b.
  apply Keeps_if; [apply Hwalk | apply Hemit].
Qed.

Lemma Keeps_run (fuel : nat) (s : option stateFunc) : Keeps P (run fuel s).
Proof.
  revert s. induction fuel as [|n IH]; intros [s|]; cbn [run];
    try apply Keeps_ret; try (intros p a p' _ H; discriminate H).
  apply Keeps_bind; [destruct s; [apply Keeps_betweenWords | apply Keeps_inWord] | apply IH].
Qed.

(** The stream [Prettify] leaves: the first line printed is the input,
    the last is the result, and what lies between keeps [P]. *)
Lemma Prettify_stream (fuel : nat) (getenv : gostring) (DebugWriter : Sink)
    (i s : gostring) (p : prettifier) :
  P (Fprintln (debug (newPrettifier getenv DebugWriter i)) (LogInput i)) ->
  PrettifyFuel fuel getenv DebugWriter i = Ok (s, p) ->
  exists w, P w /\ debug p = Fprintln w (LogResult s).
Proof.
  intros H0 H. unfold PrettifyFuel in H.
  unfold bind at 1, log at 1, modify in H.
  set (p0 := set_debug _ _) in H.
  unfold bind at 1 in H.
  destruct (run fuel (Some BetweenWords) p0) as [[[] q]| |] eqn:Hrun; try discriminate.
  unfold bind, get, log, modify, ret in H. injection H as <- <-.
  exists (debug q). split; [|reflexivity].
  eapply Keeps_run; [|exact Hrun]. exact H0.
Qed.

End Stream.

Lemma forallb_snoc {A} (f : A -> bool) (l : list A) (x : A) :
  forallb f (l ++ [x]) = forallb f l && f x.
Proof. rewrite forallb_app. cbn [forallb]. now rewrite andb_true_r. Qed.

Lemma separator_free_string_of_runes (rs : list rune) :
  forallb separator_free rs = true -> forallb separator_free (string_of_runes rs) = true.
Proof.
  induction rs as [|r rs IH]; [reflexivity|]. cbn [forallb string_of_runes map].
  rewrite !andb_true_iff. intros [Hr Hrs]. split; [|apply IH; exact Hrs].
  unfold string_of_rune. destruct (ValidRune r); [exact Hr | reflexivity].
Qed.

Lemma separator_free_Join (ws : list gostring) :
  forallb (forallb separator_free) ws = true ->
  forallb separator_free (Join ws (lit " ")) = true.
Proof.
  induction ws as [|w ws IH]; [reflexivity|]. cbn [forallb]. rewrite andb_true_iff.
  intros [Hw Hws]. destruct ws as [|w' ws]; [exact Hw|].
  change (Join (w :: w' :: ws) (lit " ")) with (w ++ 32 :: Join (w' :: ws) (lit " ")).
  rewrite forallb_app, Hw. cbn [forallb andb]. apply IH. exact Hws.
Qed.

Lemma separator_free_iff (r : rune) : separator_free r = true <-> r <> 95 /\ r <> 47.
Proof.
  unfold separator_free. rewrite negb_true_iff. apply separator_false.
Qed.

Lemma Latin1_KeepsSeparatorsOut : KeepsSeparatorsOut (U := Latin1Lib).
Proof.
  assert (forall r, separator_free r = true -> separator_free (Latin1.toLower r) = true) as Hlow.
  { intros r Hr. apply separator_free_iff in Hr. apply separator_free_iff.
    unfold Latin1.toLower. destruct (Latin1.isUpper r) eqn:E; [|exact Hr].
    apply Latin1_isUpper_iff in E. lia. }
  assert (forall r, separator_free r = true -> separator_free (Latin1.toUpper r) = true) as Hup.
  { intros r Hr. apply separator_free_iff in Hr. apply separator_free_iff.
    unfold Latin1.toUpper, Latin1.between. destruct (_ || _) eqn:E; [|exact Hr].
    rewrite !orb_true_iff, !andb_true_iff, !Z.leb_le in E. lia. }
  intros w Hw. split.
  - cbn [Title Latin1Lib]. unfold Latin1.title. generalize false.
    induction w as [|r w IH]; intros b; [reflexivity|].
    cbn [forallb] in Hw. apply andb_true_iff in Hw. destruct Hw as [Hr Hw].
    cbn [Latin1.titleFrom]. destruct (_ || _); cbn [forallb]; rewrite (IH Hw), andb_true_r;
      [destruct b; auto | exact Hr].
  - cbn [Lower Latin1Lib]. unfold Latin1.lower.
    induction w as [|r w IH]; [reflexivity|].
    cbn [forallb map] in *. apply andb_true_iff in Hw. destruct Hw as [Hr Hw].
    now rewrite (Hlow r Hr), (IH Hw).
Qed.

(** ** Further properties of the code *)

(** X1 ([inWord], [inInitialism], [prev], [next]): the boundary rule.
    In [inWord], on a rune [r] that is neither 0 nor a separator, with
    [a] the rune before it and [b] the rune after it (or [r] itself when
    it is the last one), the pass walks over [r] when [joins a r b]
    holds, and otherwise emits the word scanned so far, leaving [r] for
    [betweenWords]: a digit joins after a digit, "-" or "=", a digit or
    upper-case letter joins inside an initialism run, any other rune
    joins. *)
Theorem inWord_boundary_rule (U : UnicodeLib) (W : DebugSink)
    (p : prettifier) (a r b : rune) :
  Inv InWord p ->
  index (input p) (pos p) = Some r -> r <> eof -> separator r = false ->
  index (input p) (pos p - 1) = Some a ->
  index (input p) (if len (input p) <=? pos p + 1 then pos p else pos p + 1) = Some b ->
  exists d w,
    Emits p w /\
    inWord p =
      Ok (if joins a r b
          then (Some InWord,
                mkPrettifier d (input p) (start p) (pos p + 1) (words p)
                  (inSubTest p) (seenUnderscore p))
          else (Some BetweenWords,
                mkPrettifier d (input p) (pos p) (pos p) (words p ++ [w])
                  (inSubTest p) (seenUnderscore p))).
Proof.
  intros Hinv Hr N0 Hsep Ha Hb.
  apply inWord_joins; auto using prev_of_index, next_of_index.
Qed.

(** The hypotheses hold on the "I" of "ParseID", after "Parse": the word
    ends there. *)
Lemma inWord_boundary_rule_witness :
  let p := mkPrettifier (W := NullSink) Discard (lit "ParseID") 0 5 [] false false in
  (Inv InWord p /\
   index (input p) (pos p) = Some 73 /\ 73 <> eof /\ separator 73 = false /\
   index (input p) (pos p - 1) = Some 101 /\
   index (input p) (if len (input p) <=? pos p + 1 then pos p else pos p + 1) = Some 68) /\
  exists d w,
    Emits (U := Latin1Lib) p w /\
    inWord (U := Latin1Lib) p =
      Ok (if joins (U := Latin1Lib) 101 73 68
          then (Some InWord,
                mkPrettifier d (input p) (start p) (pos p + 1) (words p)
                  (inSubTest p) (seenUnderscore p))
          else (Some BetweenWords,
                mkPrettifier d (input p) (pos p) (pos p) (words p ++ [w])
                  (inSubTest p) (seenUnderscore p))).
Proof.
  cbv zeta.
  assert (Inv InWord (mkPrettifier (W := NullSink) Discard (lit "ParseID") 0 5 [] false false))
    as H1 by (unfold Inv; cbn; lia).
  assert (73 <> eof) as H2 by discriminate.
  split; [exact (conj H1 (conj eq_refl (conj H2 (conj eq_refl (conj eq_refl eq_refl)))))|].
  exact (inWord_boundary_rule Latin1Lib NullSink
           (mkPrettifier Discard (lit "ParseID") 0 5 [] false false) 101 73 68
           H1 eq_refl H2 eq_refl eq_refl eq_refl).
Defined.

(** X2 ([inWord], [inInitialism]): camel case.  An upper-case letter
    that follows a rune that is not upper-case always ends the word: the
    pass emits the word scanned so far and does not move the cursor. *)
Theorem camel_case_boundary (U : UnicodeLib) (W : DebugSink)
    (p : prettifier) (a r : rune) :
  Inv InWord p ->
  index (input p) (pos p) = Some r -> r <> eof -> separator r = false ->
  index (input p) (pos p - 1) = Some a ->
  IsUpper r = true -> IsDigit r = false -> IsUpper a = false ->
  exists d w,
    Emits p w /\
    inWord p =
      Ok (Some BetweenWords,
          mkPrettifier d (input p) (pos p) (pos p) (words p ++ [w])
            (inSubTest p) (seenUnderscore p)).
Proof.
  intros Hinv Hr N0 Hsep Ha Hup Hdig Hlow.
  pose proof (index_bounds _ _ _ Hr) as [Hb _].
  destruct (next_ok p) as (b & Hnext); [lia | lia |].
  destruct (inWord_joins p a r b Hinv Hr N0 Hsep (prev_of_index p a Ha) Hnext)
    as (d & w & Hw & H).
  exists d, w. split; [exact Hw|]. rewrite H.
  unfold joins, initialismRun. now rewrite Hdig, Hup, Hlow.
Qed.

(** The hypotheses hold on the "I" of "HandleInput", after "Handle". *)
Lemma camel_case_boundary_witness :
  let p := mkPrettifier (W := NullSink) Discard (lit "HandleInput") 0 6 [] false false in
  (Inv InWord p /\
   index (input p) (pos p) = Some 73 /\ 73 <> eof /\ separator 73 = false /\
   index (input p) (pos p - 1) = Some 101 /\
   IsUpper (UnicodeLib := Latin1Lib) 73 = true /\
   IsDigit (UnicodeLib := Latin1Lib) 73 = false /\
   IsUpper (UnicodeLib := Latin1Lib) 101 = false) /\
  exists d w,
    Emits (U := Latin1Lib) p w /\
    inWord (U := Latin1Lib) p =
      Ok (Some BetweenWords,
          mkPrettifier d (input p) (pos p) (pos p) (words p ++ [w])
            (inSubTest p) (seenUnderscore p)).
Proof.
  cbv zeta.
  assert (Inv InWord (mkPrettifier (W := NullSink) Discard (lit "HandleInput") 0 6 [] false false))
    as H1 by (unfold Inv; cbn; lia).
  assert (73 <> eof) as H2 by discriminate.
  split; [exact (conj H1 (conj eq_refl (conj H2 (conj eq_refl
                 (conj eq_refl (conj eq_refl (conj eq_refl eq_refl)))))))|].
  exact (camel_case_boundary Latin1Lib NullSink
           (mkPrettifier Discard (lit "HandleInput") 0 6 [] false false) 101 73
           H1 eq_refl H2 eq_refl eq_refl eq_refl eq_refl eq_refl).
Defined.

(** X3 ([inWord]): numbers are not split.  A digit that follows a digit,
    a "-" or an "=" stays in the word being scanned: the pass walks over
    it and emits nothing. *)
Theorem number_is_not_split (U : UnicodeLib) (W : DebugSink)
    (p : prettifier) (a r : rune) :
  Inv InWord p ->
  index (input p) (pos p) = Some r -> r <> eof -> separator r = false ->
  index (input p) (pos p - 1) = Some a ->
  IsDigit r = true ->
  IsDigit a = true \/ a = 45 \/ a = 61 ->
  exists d,
    inWord p =
      Ok (Some InWord,
          mkPrettifier d (input p) (start p) (pos p + 1) (words p)
            (inSubTest p) (seenUnderscore p)).
Proof.
  intros Hinv Hr N0 Hsep Ha Hdig Hprev.
  pose proof (index_bounds _ _ _ Hr) as [Hb _].
  destruct (next_ok p) as (b & Hnext); [lia | lia |].
  destruct (inWord_joins p a r b Hinv Hr N0 Hsep (prev_of_index p a Ha) Hnext)
    as (d & w & _ & H).
  exists d. rewrite H. unfold joins. rewrite Hdig.
  replace (IsDigit a || (a =? 45) || (a =? 61) || initialismRun a b) with true; [reflexivity|].
  symmetry. rewrite !orb_true_iff, !Z.eqb_eq. tauto.
Qed.

(** The hypotheses hold on the "3" of "n=3". *)
Lemma number_is_not_split_witness :
  let p := mkPrettifier (W := NullSink) Discard (lit "n=3") 0 2 [lit "Foo"] true false in
  (Inv InWord p /\
   index (input p) (pos p) = Some 51 /\ 51 <> eof /\ separator 51 = false /\
   index (input p) (pos p - 1) = Some 61 /\
   IsDigit (UnicodeLib := Latin1Lib) 51 = true /\
   (IsDigit (UnicodeLib := Latin1Lib) 61 = true \/ 61 = 45 \/ 61 = 61)) /\
  exists d,
    inWord (U := Latin1Lib) p =
      Ok (Some InWord,
          mkPrettifier d (input p) (start p) (pos p + 1) (words p)
            (inSubTest p) (seenUnderscore p)).
Proof.
  cbv zeta.
  assert (Inv InWord (mkPrettifier (W := NullSink) Discard (lit "n=3") 0 2 [lit "Foo"] true false))
    as H1 by (unfold Inv; cbn; lia).
  assert (51 <> eof) as H2 by discriminate.
  assert (IsDigit (UnicodeLib := Latin1Lib) 61 = true \/ 61 = 45 \/ 61 = 61) as H3
    by (right; right; reflexivity).
  split; [exact (conj H1 (conj eq_refl (conj H2 (conj eq_refl
                 (conj eq_refl (conj eq_refl H3))))))|].
  exact (number_is_not_split Latin1Lib NullSink
           (mkPrettifier Discard (lit "n=3") 0 2 [lit "Foo"] true false) 61 51
           H1 eq_refl H2 eq_refl eq_refl eq_refl H3).
Defined.

(** X4 ([next], [inInitialism], [inWord]): at the last rune [next] does
    not look past the end; it returns the last rune itself.  So a final
    upper-case letter or digit that follows an upper-case letter stays in
    the word, which ends as an initialism ("JSON", "ID", "V2"). *)
Theorem final_initialism_rune_joins (U : UnicodeLib) (W : DebugSink)
    (p : prettifier) (a r : rune) :
  Inv InWord p ->
  pos p + 1 = len (input p) ->
  index (input p) (pos p) = Some r -> r <> eof -> separator r = false ->
  index (input p) (pos p - 1) = Some a ->
  IsUpper a = true -> IsUpper r = true \/ IsDigit r = true ->
  next p = Ok (r, p) /\
  exists d,
    inWord p =
      Ok (Some InWord,
          mkPrettifier d (input p) (start p) (pos p + 1) (words p)
            (inSubTest p) (seenUnderscore p)).
Proof.
  intros Hinv Hlast Hr N0 Hsep Ha Hup Hcase.
  assert (next p = Ok (r, p)) as Hnext.
  { apply next_of_index.
    replace (len (input p) <=? pos p + 1) with true by (symmetry; apply Z.leb_le; lia).
    exact Hr. }
  split; [exact Hnext|].
  destruct (inWord_joins p a r r Hinv Hr N0 Hsep (prev_of_index p a Ha) Hnext)
    as (d & w & _ & H).
  exists d. rewrite H. unfold joins, initialismRun. rewrite Hup. cbn [andb].
  destruct (IsDigit r) eqn:Ed.
  - now rewrite !orb_true_r.
  - destruct Hcase as [-> | E]; [reflexivity | discriminate].
Qed.

(** The hypotheses hold on the "D" that ends "ParseID". *)
Lemma final_initialism_rune_joins_witness :
  let p := mkPrettifier (W := NullSink) Discard (lit "ParseID") 5 6 [lit "Parse"] false false in
  (Inv InWord p /\ pos p + 1 = len (input p) /\
   index (input p) (pos p) = Some 68 /\ 68 <> eof /\ separator 68 = false /\
   index (input p) (pos p - 1) = Some 73 /\
   IsUpper (UnicodeLib := Latin1Lib) 73 = true /\
   (IsUpper (UnicodeLib := Latin1Lib) 68 = true \/
    IsDigit (UnicodeLib := Latin1Lib) 68 = true)) /\
  next p = Ok (68, p) /\
  exists d,
    inWord (U := Latin1Lib) p =
      Ok (Some InWord,
          mkPrettifier d (input p) (start p) (pos p + 1) (words p)
            (inSubTest p) (seenUnderscore p)).
Proof.
  cbv zeta.
  assert (Inv InWord (mkPrettifier (W := NullSink) Discard (lit "ParseID") 5 6 [lit "Parse"] false false))
    as H1 by (unfold Inv; cbn; lia).
  assert (68 <> eof) as H2 by discriminate.
  assert (IsUpper (UnicodeLib := Latin1Lib) 68 = true \/
          IsDigit (UnicodeLib := Latin1Lib) 68 = true) as H3 by (left; reflexivity).
  split; [exact (conj H1 (conj eq_refl (conj eq_refl (conj H2 (conj eq_refl
                 (conj eq_refl (conj eq_refl H3)))))))|].
  exact (final_initialism_rune_joins Latin1Lib NullSink
           (mkPrettifier Discard (lit "ParseID") 5 6 [lit "Parse"] false false) 73 68
           H1 eq_refl eq_refl H2 eq_refl eq_refl eq_refl H3).
Defined.

(** X5 ([emit], [isInitialism]): what [emit] appends.  The word is the
    runes from [start] to [pos]; [isInitialism] looks at exactly that
    word, all but its last rune in its loop and its last rune after it.
    The first word is title-cased; a later word shorter than three bytes
    is lower-cased unless it is "OK"; a later, longer word is kept as it
    is when no rune before its last is lower-case and its last rune is
    upper-case, a digit or "s", and is lower-cased otherwise.  The cursor
    origin moves to [pos]. *)
Theorem emit_rule (U : UnicodeLib) (W : DebugSink)
    (p : prettifier) (rs : list rune) (r : rune) :
  slice (input p) (start p) (pos p) = Some (rs ++ [r]) ->
  exists d,
    emit p =
      Ok (tt,
          mkPrettifier d (input p) (pos p) (pos p)
            (words p ++
             [let word := string_of_runes (rs ++ [r]) in
              if len (words p) =? 0 then Title word
              else if len_string word <? 3 then
                if string_eqb word (lit "OK") then word else Lower word
              else if negb (existsb IsLower rs) && (IsUpper r || IsDigit r || (r =? 115))
                   then word else Lower word])
            (inSubTest p) (seenUnderscore p)).
Proof.
  intros Hs. cbv zeta.
  pose proof (slice_inv _ _ _ _ Hs) as (H0 & H1 & H2 & Hl & _).
  assert (start p < pos p) as Hlt.
  { unfold len in Hl. rewrite length_app in Hl. cbn [length] in Hl. lia. }
  destruct (slice_snoc _ _ _ _ Hs Hlt) as (rs1 & r1 & Hs1 & Hr1 & Heq).
  apply app_inj_tail in Heq. destruct Heq as [<- <-].
  destruct (isInitialism_eq p H0 Hlt H2) as (rs0 & r0 & Hs0 & Hr0 & Hinit).
  rewrite Hs1 in Hs0. injection Hs0 as <-. rewrite Hr1 in Hr0. injection Hr0 as <-.
  unfold emit, bind, get, lift, ret, log, modify, skip. rewrite Hs.
  destruct (len (words p) =? 0); [eexists; reflexivity|].
  destruct (len_string (string_of_runes (rs ++ [r])) <? 3).
  - destruct (string_eqb (string_of_runes (rs ++ [r])) (lit "OK")); eexists; reflexivity.
  - rewrite Hinit.
    destruct (existsb IsLower rs); cbn [negb andb]; [eexists; reflexivity|].
    destruct (IsUpper r || IsDigit r || (r =? 115)); eexists; reflexivity.
Qed.

(** The hypothesis holds when "IDs" is emitted after "List". *)
Lemma emit_rule_witness :
  let p := mkPrettifier (W := NullSink) Discard (lit "ListIDs") 4 7 [lit "List"] false false in
  slice (input p) (start p) (pos p) = Some (lit "ID" ++ [115]) /\
  exists d,
    emit (U := Latin1Lib) p =
      Ok (tt,
          mkPrettifier d (input p) (pos p) (pos p)
            (words p ++
             [let word := string_of_runes (lit "ID" ++ [115]) in
              if len (words p) =? 0 then Title (UnicodeLib := Latin1Lib) word
              else if len_string word <? 3 then
                if string_eqb word (lit "OK") then word
                else Lower (UnicodeLib := Latin1Lib) word
              else if negb (existsb (IsLower (UnicodeLib := Latin1Lib)) (lit "ID")) &&
                      (IsUpper (UnicodeLib := Latin1Lib) 115 ||
                       IsDigit (UnicodeLib := Latin1Lib) 115 || (115 =? 115))
                   then word else Lower (UnicodeLib := Latin1Lib) word])
            (inSubTest p) (seenUnderscore p)).
Proof.
  cbv zeta. split; [reflexivity|].
  exact (emit_rule Latin1Lib NullSink
           (mkPrettifier Discard (lit "ListIDs") 4 7 [lit "List"] false false)
           (lit "ID") 115 eq_refl).
Defined.

(** X6 ([emit], [isInitialism]): the empty window.  Clamping [end] to
    [start] does not make [isInitialism] total: with [start = pos] at the
    end of the input it indexes past the last rune and panics.  [emit]
    never gets there: on an empty window within the bounds the word is
    empty, hence shorter than three bytes, and [emit] appends its
    title-cased or lower-cased form without calling [isInitialism]. *)
Theorem empty_window_edge (U : UnicodeLib) (W : DebugSink) (p : prettifier) :
  0 <= start p -> start p = pos p -> pos p <= len (input p) ->
  (exists d,
     emit p =
       Ok (tt,
           mkPrettifier d (input p) (pos p) (pos p)
             (words p ++ [if len (words p) =? 0 then Title [] else Lower []])
             (inSubTest p) (seenUnderscore p))) /\
  (pos p = len (input p) -> isInitialism p = Panic) /\
  (pos p < len (input p) -> exists b, isInitialism p = Ok (b, p)).
Proof.
  intros H0 Heq H1. split; [|split].
  - unfold emit, bind, get, lift, ret, log, modify, skip.
    rewrite Heq, slice_nil by lia. cbn [string_of_runes map len_string fold_right].
    destruct (len (words p) =? 0); eexists; reflexivity.
  - intros Hend. unfold isInitialism, bind, get, lift, ret.
    replace (pos p - 1 <? start p) with true by (symmetry; apply Z.ltb_lt; lia).
    rewrite slice_nil by lia. cbn [existsb].
    unfold index. replace (start p <? len (input p)) with false
      by (symmetry; apply Z.ltb_ge; lia).
    now rewrite andb_false_r.
  - intros Hlt. unfold isInitialism, bind, get, lift, ret.
    replace (pos p - 1 <? start p) with true by (symmetry; apply Z.ltb_lt; lia).
    rewrite slice_nil by lia. cbn [existsb].
    destruct (index_Some_iff (input p) (start p)) as (r & Hr & _); [lia|].
    rewrite Hr. eexists; reflexivity.
Qed.

(** The hypotheses hold of the struct [Prettify] starts from on the
    empty input. *)
Lemma empty_window_edge_witness :
  let p := mkPrettifier (W := NullSink) Discard [] 0 0 [] false false in
  (0 <= start p /\ start p = pos p /\ pos p <= len (input p)) /\
  (exists d,
     emit (U := Latin1Lib) p =
       Ok (tt,
           mkPrettifier d (input p) (pos p) (pos p)
             (words p ++ [if len (words p) =? 0
                          then Title (UnicodeLib := Latin1Lib) []
                          else Lower (UnicodeLib := Latin1Lib) []])
             (inSubTest p) (seenUnderscore p))) /\
  (pos p = len (input p) -> isInitialism (U := Latin1Lib) p = Panic) /\
  (pos p < len (input p) -> exists b, isInitialism (U := Latin1Lib) p = Ok (b, p)).
Proof.
  cbv zeta.
  assert (0 <= 0) as H1 by lia.
  assert (0 <= len (@nil rune)) as H2 by (unfold len; cbn; lia).
  split; [exact (conj H1 (conj eq_refl H2))|].
  exact (empty_window_edge Latin1Lib NullSink
           (mkPrettifier Discard [] 0 0 [] false false) H1 eq_refl H2).
Defined.

(** X7 ([betweenWords]): an identifier that, once stripped, holds nothing
    but underscores and slashes has no word: [Prettify] returns the empty
    string. *)
Theorem separators_only_is_empty (U : UnicodeLib) (W : DebugSink)
    (getenv : gostring) (DebugWriter : Sink) (i : gostring) :
  forallb separator (TrimPrefix i (lit "Test")) = true ->
  returned (Prettify getenv DebugWriter i) = Ok [].
Proof.
  intros Hsep.
  pose (K := fun (s : option stateFunc) (p : prettifier) =>
               words p = [] /\ s <> Some InWord /\ forallb separator (input p) = true).
  destruct (Prettify_words K getenv DebugWriter i) as (p & H & _ & Hw & _).
  - intros s p s' p' Hinv (Hw & Hs & Hall) Hstep.
    destruct s; [|congruence].
    inversion Hstep; subst; cbn [words input]; repeat split; auto; try discriminate.
    match goal with E : index _ _ = Some ?r |- _ =>
      apply index_bounds in E; destruct E as [_ E];
      apply (forallb_In _ _ _ Hall) in E; apply separator_true in E
    end. tauto.
  - intros p0 (_ & Hin & _ & _ & Hw & _). repeat split; [exact Hw | discriminate|].
    rewrite Hin. exact Hsep.
  - rewrite H, Hw. reflexivity.
Qed.

(** The hypothesis holds of "Test__/_". *)
Lemma separators_only_is_empty_witness :
  forallb separator (TrimPrefix (lit "Test__/_") (lit "Test")) = true /\
  returned (Prettify (U := Latin1Lib) (W := NullSink) [] tt (lit "Test__/_")) = Ok [].
Proof.
  split; [reflexivity|].
  exact (separators_only_is_empty Latin1Lib NullSink [] tt (lit "Test__/_") eq_refl).
Defined.

(** X8 ([betweenWords], [inWord], [emit]): an identifier with no boundary
    in it is one word.  When the stripped identifier is not empty, holds
    no underscore, slash or rune 0, and no digit or upper-case letter
    after its first rune, [Prettify] returns it title-cased and nothing
    else. *)
Theorem unbroken_name_is_one_word (U : UnicodeLib) (W : DebugSink)
    (getenv : gostring) (DebugWriter : Sink) (i : gostring)
    (r0 : rune) (rest : list rune) :
  TrimPrefix i (lit "Test") = r0 :: rest ->
  (forall r, In r (r0 :: rest) -> r <> eof /\ separator r = false) ->
  (forall r, In r rest -> IsDigit r = false /\ IsUpper r = false) ->
  returned (Prettify getenv DebugWriter i) = Ok (Title (string_of_runes (r0 :: rest))).
Proof.
  intros Hshape Hall Hrest.
  pose (K := fun (s : option stateFunc) (p : prettifier) =>
               input p = r0 :: rest /\
               match s with
               | Some BetweenWords => pos p = 0 /\ words p = []
               | Some InWord => start p = 0 /\ 1 <= pos p /\ words p = []
               | None => words p = [Title (string_of_runes (r0 :: rest))]
               end).
  assert (forall (p : prettifier) r, input p = r0 :: rest ->
            index (input p) (pos p) = Some r ->
            r <> eof /\ r <> 95 /\ r <> 47 /\
            (1 <= pos p -> IsDigit r || IsUpper r = false)) as Hrune.
  { intros p r Hin Hr. pose proof (index_bounds _ _ _ Hr) as [_ Hmem].
    rewrite Hin in Hmem. destruct (Hall r Hmem) as (N0 & Hs).
    apply separator_false in Hs. repeat split; try tauto.
    intros Hpos. rewrite Hin, index_cons in Hr by exact Hpos.
    apply index_bounds in Hr. destruct Hr as [_ Hr].
    destruct (Hrest r Hr) as [-> ->]. reflexivity. }
  assert (forall p : prettifier, input p = r0 :: rest -> atEOF p -> pos p = len (input p)) as Heof.
  { intros p Hin [H | H]; [exact H|]. apply (Hrune p _ Hin) in H. tauto. }
  destruct (Prettify_words K getenv DebugWriter i) as (p & H & _ & _ & Hw).
  - intros s p s' p' (H0 & H1 & H2) (Hin & Hs) Hstep.
    split; [rewrite (Step_input _ _ _ _ Hstep); exact Hin|].
    destruct s.
    + destruct Hs as (Hpos & Hw).
      inversion Hstep; subst; cbn [input start pos words];
        try match goal with E : atEOF _ |- _ =>
              apply (Heof _ Hin) in E; rewrite Hin in E; unfold len in E; cbn [length] in E; lia
            end;
        match goal with E : index _ _ = Some _ |- _ => apply (Hrune _ _ Hin) in E end;
        [tauto | repeat split; auto; lia].
    + destruct Hs as (Hst & Hpos & Hw).
      inversion Hstep; subst; cbn [input start pos words];
        try match goal with E : index _ _ = Some _ |- _ =>
              apply (Hrune _ _ Hin) in E; destruct E as (? & ? & ? & E);
              try specialize (E Hpos)
            end;
        try congruence; try (repeat split; auto; lia).
      match goal with E : atEOF _ |- _ => apply (Heof _ Hin) in E; rename E into Hend end.
      match goal with E : Emits _ _ |- _ => destruct E as (rs & Hrs & Hcase) end.
      rewrite Hst, Hend, slice_full in Hrs. injection Hrs as <-.
      destruct Hcase as [[_ ->] | [Hne _]]; [rewrite Hw, Hin; reflexivity | contradiction].
  - intros p0 (_ & Hin & _ & Hpos & Hw & _). split; [rewrite Hin; exact Hshape | auto].
  - rewrite H, Hw. reflexivity.
Qed.

(** The hypotheses hold of "Testwell-formed". *)
Lemma unbroken_name_is_one_word_witness :
  let i := lit "Testwell-formed" in
  (TrimPrefix i (lit "Test") = 119 :: lit "ell-formed" /\
   (forall r, In r (119 :: lit "ell-formed") -> r <> eof /\ separator r = false) /\
   (forall r, In r (lit "ell-formed") ->
      IsDigit (UnicodeLib := Latin1Lib) r = false /\
      IsUpper (UnicodeLib := Latin1Lib) r = false)) /\
  returned (Prettify (U := Latin1Lib) (W := NullSink) [] tt i) =
    Ok (Title (UnicodeLib := Latin1Lib) (string_of_runes (119 :: lit "ell-formed"))).
Proof.
  cbv zeta.
  assert (TrimPrefix (lit "Testwell-formed") (lit "Test") = 119 :: lit "ell-formed") as H1
    by reflexivity.
  assert (forall r, In r (119 :: lit "ell-formed") -> r <> eof /\ separator r = false) as H2.
  { assert (forallb (fun r => negb (r =? eof) && negb (separator r))
              (119 :: lit "ell-formed") = true) as Hall by (vm_compute; reflexivity).
    intros r Hr. apply (forallb_In _ _ _ Hall) in Hr.
    rewrite andb_true_iff, !negb_true_iff, Z.eqb_neq in Hr. exact Hr. }
  assert (forall r, In r (lit "ell-formed") ->
            IsDigit (UnicodeLib := Latin1Lib) r = false /\
            IsUpper (UnicodeLib := Latin1Lib) r = false) as H3.
  { assert (forallb (fun r => negb (Latin1.isDigit r) && negb (Latin1.isUpper r))
              (lit "ell-formed") = true) as Hall by (vm_compute; reflexivity).
    intros r Hr. apply (forallb_In _ _ _ Hall) in Hr.
    rewrite andb_true_iff, !negb_true_iff in Hr. exact Hr. }
  split; [auto|].
  exact (unbroken_name_is_one_word Latin1Lib NullSink [] tt _ _ _ H1 H2 H3).
Defined.



(** X10 ([betweenWords], [inWord], [emit]): separators never survive.
    Whatever the input, the string [Prettify] returns holds no underscore
    and no slash, case mapping being one that puts none into a word that
    has none. *)
Theorem result_has_no_separator (U : UnicodeLib) (W : DebugSink)
    (getenv : gostring) (DebugWriter : Sink) (i : gostring) :
  KeepsSeparatorsOut ->
  exists s,
    returned (Prettify getenv DebugWriter i) = Ok s /\
    forallb separator_free s = true.
Proof.
  intros HU.
  pose (K := fun (s : option stateFunc) (p : prettifier) =>
               forallb (forallb separator_free) (words p) = true /\
               match s with
               | Some _ =>
                   exists rs, slice (input p) (start p) (pos p) = Some rs /\
                              forallb separator_free rs = true
               | None => True
               end).
  destruct (Prettify_words K getenv DebugWriter i) as (p & H & _ & Hw & _).
  - intros s p s' p' Hinv (Hws & rs & Hrs & Hfree) Hstep.
    pose proof (slice_inv _ _ _ _ Hrs) as (B0 & B1 & B2 & _).
    assert (exists rs0, slice (input p) (pos p) (pos p) = Some rs0 /\
                        forallb separator_free rs0 = true) as Hnil
      by (exists []; split; [apply slice_nil; lia | reflexivity]).
    assert (forall w, Emits p w -> forallb (forallb separator_free) (words p ++ [w]) = true)
      as Hemit.
    { intros w (rs' & Hs' & Hcase). rewrite Hrs in Hs'. injection Hs' as <-.
      rewrite forallb_snoc, Hws. cbn [andb].
      pose proof (separator_free_string_of_runes rs Hfree) as Hsor.
      destruct (HU _ Hsor) as [Ht Hl].
      destruct Hcase as [[_ ->] | [_ [-> | ->]]]; assumption. }
    assert (forall r, index (input p) (pos p) = Some r -> r <> 95 -> r <> 47 ->
              exists rs0, slice (input p) (start p) (pos p + 1) = Some rs0 /\
                          forallb separator_free rs0 = true) as Hgrow.
    { intros r Hr N95 N47. exists (rs ++ [r]). split; [apply slice_grow; assumption|].
      rewrite forallb_snoc, Hfree. unfold separator_free.
      replace (separator r) with false by (symmetry; apply separator_false; tauto).
      reflexivity. }
    inversion Hstep; subst; cbv beta delta [K]; cbn [input start pos words].
    + (* StepStop *) split; [exact Hws | exact I].
    + (* StepSkip *)
      split; [exact Hws|].
      match goal with E : index _ _ = Some _ |- _ => apply index_bounds in E; destruct E as [E _] end.
      exists []. split; [apply slice_nil; cbn [input start pos]; lia | reflexivity].
    + (* StepEnter *) split; [exact Hws | eapply Hgrow; eauto].
    + (* StepLast *) split; [auto | exact I].
    + (* StepFold *)
      split; [|exact Hnil].
      match goal with E : Emits _ _ |- _ => apply Hemit in E; revert E end.
      cbn [forallb]. rewrite andb_true_r.
      generalize (words p ++ [w]). intros ws Hall.
      assert (forall acc, forallb separator_free acc = true ->
                forallb separator_free
                  (fold_left (fun fname w0 => fname ++ Title w0) ws acc) = true) as Hfold.
      { induction ws as [|w0 ws IH]; intros acc Hacc; [exact Hacc|].
        cbn [fold_left forallb] in *. apply andb_true_iff in Hall. destruct Hall as [Hw0 Hall].
        apply IH; [exact Hall|]. rewrite forallb_app, Hacc. apply (HU w0 Hw0). }
      apply Hfold. reflexivity.
    + (* StepUnderscore *) split; [auto | exact Hnil].
    + (* StepSlash *) split; [auto | exact Hnil].
    + (* StepWalk *) split; [exact Hws | eapply Hgrow; eauto].
    + (* StepBreak *) split; [auto | exact Hnil].
  - intros p0 (_ & _ & Hst & Hpos & Hw & _). cbv beta delta [K].
    rewrite Hw, Hst, Hpos. split; [reflexivity|].
    exists []. split; [apply slice_nil; [lia | apply len_nonneg] | reflexivity].
  - exists (Join (words p) (lit " ")). split; [exact H|].
    apply separator_free_Join. exact Hw.
Qed.

(** The hypothesis holds of the Latin-1 tables. *)
Lemma result_has_no_separator_witness :
  KeepsSeparatorsOut (U := Latin1Lib) /\
  exists s,
    returned (Prettify (U := Latin1Lib) (W := NullSink) [] tt
                (lit "TestFoo/has_well-formed_output")) = Ok s /\
    forallb separator_free s = true.
Proof.
  split; [exact Latin1_KeepsSeparatorsOut|].
  exact (result_has_no_separator Latin1Lib NullSink [] tt
           (lit "TestFoo/has_well-formed_output") Latin1_KeepsSeparatorsOut).
Defined.

(** X11 ([inWord], [multiWordFunction]): once a slash has ended a word,
    underscores are plain separators.  When the stripped identifier is
    [w ++ "/" ++ rest] with [w] not empty and free of underscores, slashes
    and the rune 0, no pass of the scan folds, whatever [rest] holds. *)
Theorem no_fold_in_subtest (U : UnicodeLib) (W : DebugSink)
    (getenv : gostring) (DebugWriter : Sink) (i : gostring) (w rest : list rune) :
  TrimPrefix i (lit "Test") = w ++ 47 :: rest ->
  w <> [] ->
  (forall r, In r w -> r <> 95 /\ r <> 47 /\ r <> eof) ->
  Forall (fun c => folds c = false) (scan getenv DebugWriter i).
Proof.
  intros Hshape Hne Hw.
  destruct (Prettify_started getenv DebugWriter i) as (p0 & Hp0).
  destruct (started_Inv _ _ _ _ Hp0) as (Hinv & _).
  rewrite (scan_eq _ _ _ _ Hp0).
  pose (K := fun (s : option stateFunc) (p : prettifier) =>
               input p = w ++ 47 :: rest /\
               (inSubTest p = true \/
                match s with
                | Some InWord => pos p <= len w
                | Some BetweenWords => pos p < len w
                | None => True
                end)).
  assert (forall (p : prettifier) r, input p = w ++ 47 :: rest -> 0 <= pos p ->
            pos p <= len w -> index (input p) (pos p) = Some r ->
            r <> 95 /\ r <> eof /\ (pos p < len w -> r <> 47) /\ (pos p = len w -> r = 47))
    as Hrune.
  { intros p r Hin H0 H1 Hr. rewrite Hin in Hr.
    destruct (Z.eq_dec (pos p) (len w)) as [E | E].
    - rewrite E, index_app_mid in Hr. injection Hr as <-. unfold eof. repeat split; lia.
    - destruct (index_app_left w (47 :: rest) (pos p)) as (r' & Hr' & Hin'); [lia | lia |].
      rewrite Hr in Hr'. injection Hr' as <-. destruct (Hw r Hin') as (? & ? & ?).
      repeat split; auto. lia. }
  eapply Forall_impl; [|apply (configs_invariant K)].
  - intros [[[]|] p] (Hin & Hcase); cbn [fst snd folds] in *; try reflexivity.
    destruct (index (input p) (pos p)) as [r|] eqn:Hr; [|reflexivity].
    destruct Hcase as [-> | Hpos]; [now rewrite andb_false_r|].
    pose proof (index_bounds _ _ _ Hr) as [Hb _].
    destruct (Hrune p r Hin) as (N95 & _); [lia | lia | exact Hr |].
    replace (r =? 95) with false by (symmetry; apply Z.eqb_neq; exact N95). reflexivity.
  - intros s p s' p' (H0 & H1 & H2) (Hin & Hcase) Hstep.
    split; [rewrite (Step_input _ _ _ _ Hstep); exact Hin|].
    destruct Hcase as [Hsub | Hpos].
    { left. inversion Hstep; subst; cbn [inSubTest]; auto. }
    assert (0 <= pos p /\ pos p <= len w) as [P0 P1] by (destruct s; lia).
    assert (pos p = len (input p) -> False) as Hend.
    { rewrite Hin. unfold len. rewrite length_app. cbn [length]. unfold len in P1. lia. }
    inversion Hstep; subst; cbn [inSubTest pos];
      try match goal with
          | E : atEOF _ |- _ =>
              destruct E as [E | E]; [contradiction | apply (Hrune p _ Hin P0 P1) in E; tauto]
          end;
      try match goal with
          | E : index _ _ = Some _ |- _ =>
              apply (Hrune p _ Hin P0 P1) in E; destruct E as (? & ? & Hlt & Heq)
          end;
      try congruence;
      try (match goal with E : _ = 95 \/ _ = 47 |- _ =>
             destruct E as [E | E]; [congruence|];
             right; destruct (Z.eq_dec (pos p) (len w)); [lia | exfalso; apply Hlt; [lia | exact E]]
           end);
      try (left; reflexivity);
      try (right; destruct (Z.eq_dec (pos p) (len w)) as [E | E];
           [exfalso; apply Heq in E; congruence | lia]).
  - exact Hinv.
  - destruct Hp0 as (_ & Hin & _ & Hpos & _). split; [rewrite Hin; exact Hshape|].
    right. rewrite Hpos. destruct w; [contradiction|]. unfold len. cbn [length]. lia.
Qed.

(** The hypotheses hold of "TestFoo/has_well-formed_output", with "Foo"
    before the slash. *)
Lemma no_fold_in_subtest_witness :
  let i := lit "TestFoo/has_well-formed_output" in
  (TrimPrefix i (lit "Test") = lit "Foo" ++ 47 :: lit "has_well-formed_output" /\
   lit "Foo" <> [] /\
   forall r, In r (lit "Foo") -> r <> 95 /\ r <> 47 /\ r <> eof) /\
  Forall (fun c => folds c = false)
         (scan (U := Latin1Lib) (W := NullSink) [] tt i).
Proof.
  cbv zeta.
  assert (lit "Foo" <> []) as H2 by discriminate.
  assert (forall r, In r (lit "Foo") -> r <> 95 /\ r <> 47 /\ r <> eof) as H3.
  { assert (forallb (fun r => negb (r =? 95) && negb (r =? 47) && negb (r =? eof))
              (lit "Foo") = true) as Hall by (vm_compute; reflexivity).
    intros r Hr. apply (forallb_In _ _ _ Hall) in Hr.
    rewrite !andb_true_iff, !negb_true_iff, !Z.eqb_neq in Hr. tauto. }
  split; [exact (conj eq_refl (conj H2 H3))|].
  exact (no_fold_in_subtest Latin1Lib NullSink [] tt
           (lit "TestFoo/has_well-formed_output") (lit "Foo") (lit "has_well-formed_output")
           eq_refl H2 H3).
Defined.

(** X12 ([Prettify]): the prefix is stripped once, and is optional.  The
    scan of ["Test" ++ s] runs over [s], whatever [s] starts with; and
    when [s] does not itself start with "Test", [Prettify] returns for
    ["Test" ++ s] what it returns for [s]. *)
Theorem prefix_is_stripped_once (U : UnicodeLib) (W : DebugSink)
    (getenv : gostring) (DebugWriter : Sink) (s : gostring) :
  Forall (fun c => input (snd c) = s) (scan getenv DebugWriter (lit "Test" ++ s)) /\
  (HasPrefix s (lit "Test") = false ->
   returned (Prettify getenv DebugWriter (lit "Test" ++ s)) =
   returned (Prettify getenv DebugWriter s)).
Proof.
  split.
  - destruct (Prettify_started getenv DebugWriter (lit "Test" ++ s)) as (p0 & Hp0).
    destruct (started_Inv _ _ _ _ Hp0) as (Hinv & _).
    rewrite (scan_eq _ _ _ _ Hp0).
    apply (configs_invariant (fun _ p => input p = s)); auto.
    + intros s0 p s' p' _ Hin Hstep. rewrite (Step_input _ _ _ _ Hstep). exact Hin.
    + destruct Hp0 as (_ & -> & _). apply TrimPrefix_Test.
  - intros Hno. unfold Prettify, enough.
    rewrite TrimPrefix_Test, (TrimPrefix_absent _ _ Hno).
    etransitivity; [apply PrettifyFuel_erased|].
    etransitivity; [|symmetry; apply PrettifyFuel_erased].
    apply PrettifyFuel_stripped.
    now rewrite TrimPrefix_Test, (TrimPrefix_absent _ _ Hno).
Qed.

(** The hypothesis holds of "Foo"; and "TestTestFoo" is scanned as
    "TestFoo". *)
Lemma prefix_is_stripped_once_witness :
  HasPrefix (lit "Foo") (lit "Test") = false /\
  returned (Prettify (U := Latin1Lib) (W := NullSink) [] tt (lit "Test" ++ lit "Foo")) =
  returned (Prettify (U := Latin1Lib) (W := NullSink) [] tt (lit "Foo")).
Proof.
  split; [reflexivity|].
  exact (proj2 (prefix_is_stripped_once Latin1Lib NullSink [] tt (lit "Foo")) eq_refl).
Defined.

(** X13 ([Prettify], [log]): with GOTESTDOX_DEBUG unset or empty nothing
    is written.  The call returns with [p.debug] still [io.Discard]:
    [DebugWriter] is never handed to a write, for any input. *)
Theorem no_trace_without_switch (U : UnicodeLib) (W : DebugSink)
    (DebugWriter : Sink) (i : gostring) :
  exists s p, Prettify [] DebugWriter i = Ok (s, p) /\ debug p = Discard.
Proof.
  destruct (Prettify_invariant (fun _ _ => True) [] DebugWriter i 0) as (p & d & H & _); auto.
  rewrite Nat.add_0_r in H. fold (Prettify [] DebugWriter i) in H.
  eexists; eexists. split; [exact H|].
  destruct (Prettify_stream (fun w => w = Discard)) with
    (fuel := enough i) (getenv := @nil rune) (DebugWriter := DebugWriter) (i := i)
    (s := Join (words p) (lit " ")) (p := set_debug p d) as (w & -> & Hd).
  - intros w l ->. reflexivity.
  - reflexivity.
  - exact H.
  - exact Hd.
Qed.

(** X14 ([Prettify], [log], [logState]): with GOTESTDOX_DEBUG set, the
    writer is used for writes and nothing else: what the call leaves is
    [DebugWriter] after a sequence of lines written in order, the first
    being the input line and the last the result line, which carries the
    string the call returns. *)
Theorem trace_frames_the_run (U : UnicodeLib) (W : DebugSink)
    (getenv : gostring) (DebugWriter : Sink) (i : gostring) :
  getenv <> [] ->
  exists s p lines,
    Prettify getenv DebugWriter i = Ok (s, p) /\
    debug p =
      Stream (fold_left write (LogInput i :: lines ++ [LogResult s]) DebugWriter).
Proof.
  intros Henv.
  destruct (Prettify_invariant (fun _ _ => True) getenv DebugWriter i 0) as (p & d & H & _); auto.
  rewrite Nat.add_0_r in H. fold (Prettify getenv DebugWriter i) in H.
  destruct (Prettify_stream
              (fun w => exists lines, w = Stream (fold_left write (LogInput i :: lines) DebugWriter)))
    with (fuel := enough i) (getenv := getenv) (DebugWriter := DebugWriter) (i := i)
         (s := Join (words p) (lit " ")) (p := set_debug p d) as (w & (lines & ->) & Hd).
  - intros w l (lines & ->). exists (lines ++ [l]). cbn [Fprintln].
    now rewrite app_comm_cons, fold_left_app.
  - exists []. unfold newPrettifier.
    destruct getenv; [contradiction|]. reflexivity.
  - exact H.
  - eexists; eexists; exists lines. split; [exact H|].
    rewrite Hd. cbn [Fprintln]. now rewrite app_comm_cons, fold_left_app.
Qed.

(** The hypothesis holds of the value "1". *)
Lemma trace_frames_the_run_witness :
  lit "1" <> [] /\
  exists s p lines,
    Prettify (U := Latin1Lib) (W := TraceSink) (lit "1") [] (lit "TestFoo") = Ok (s, p) /\
    debug p =
      Stream (W := TraceSink)
        (fold_left (write (DebugSink := TraceSink))
           (LogInput (lit "TestFoo") :: lines ++ [LogResult s]) []).
Proof.
  assert (lit "1" <> []) as H by discriminate.
  split; [exact H|].
  exact (trace_frames_the_run Latin1Lib TraceSink (lit "1") [] (lit "TestFoo") H).
Defined.
